(** * gguf_read.py: the GGUF metadata walker, embedded and verified

    The script [src/output/gguf_read.py] walks the key/value metadata block
    of a GGUF file, skips every value it does not want and collects the
    string values whose key names a chat template or a tokenizer model.

    The embedding follows the script line by line:
    - the open binary file [f] is the list of bytes that have not been read
      yet (the cursor only moves forward, so the bytes behind it are gone);
    - the global list [result] is the second component of the state;
    - [f.read(n)] returns {e up to} [n] bytes: the end of the file is no
      error for it;
    - [struct.unpack(fmt, b)] raises [struct.error] when [b] has not exactly
      the size of the format, and returns the little-endian number otherwise;
    - [bytes.decode('utf-8', 'replace')] is total and puts U+FFFD where the
      input is not UTF-8;
    - a Python [str] is its list of code points.

    Python integers are unbounded and so are the numbers here. The limits
    of an interpreter are outside the model: its recursion limit, and the
    sizes [read] refuses (2^63-1 and more) or cannot get memory for. A
    string whose bytes are in the file is far below them. *)

From Stdlib Require Import NArith List Lia Strings.Byte Strings.String Strings.Ascii.
From stdpp Require Import base numbers list option gmap.

Local Open Scope N_scope.

(** ** Bytes and little-endian numbers *)

Abbreviation byte := Init.Byte.byte.

(** [struct.unpack('<I', b)[0]] and [struct.unpack('<Q', b)[0]] on a buffer
    of the right size: the little-endian value of the bytes. *)
Fixpoint le_decode (bs : list byte) : N :=
  match bs with
  | [] => 0
  | b :: bs' => Byte.to_N b + 256 * le_decode bs'
  end.

(** ** Text: a [str] as its code points *)

Definition text := list N.

Definition text_of_string (s : string) : text :=
  map N_of_ascii (list_ascii_of_string s).

(** U+FFFD, what the ['replace'] error handler puts for bytes it rejects. *)
Definition REPLACEMENT : N := 0xFFFD.

Definition is_cont (b : N) : bool := N.land b 0xC0 =? 0x80.

Definition cp2 (b0 b1 : N) : N :=
  N.lor (N.shiftl (N.land b0 0x1F) 6) (N.land b1 0x3F).

Definition cp3 (b0 b1 b2 : N) : N :=
  N.lor (N.shiftl (N.land b0 0x0F) 12)
        (N.lor (N.shiftl (N.land b1 0x3F) 6) (N.land b2 0x3F)).

Definition cp4 (b0 b1 b2 b3 : N) : N :=
  N.lor (N.shiftl (N.land b0 0x07) 18)
        (N.lor (N.shiftl (N.land b1 0x3F) 12)
               (N.lor (N.shiftl (N.land b2 0x3F) 6) (N.land b3 0x3F))).

(** The second byte of a three-byte form must not encode a value below
    U+0800 (lead E0) nor a surrogate (lead ED); of a four-byte form, not a
    value below U+10000 (lead F0) nor one above U+10FFFF (lead F4). *)
Definition bad_second3 (b0 b1 : N) : bool :=
  if b1 <? 0xA0 then b0 =? 0xE0 else b0 =? 0xED.

Definition bad_second4 (b0 b1 : N) : bool :=
  if b1 <? 0x90 then b0 =? 0xF0 else b0 =? 0xF4.

(** [bs.decode('utf-8', 'replace')]. A rejected lead byte costs one byte, a
    rejected continuation costs the bytes accepted before it, and a form cut
    by the end of the input costs what is left; each is replaced by one
    U+FFFD and decoding goes on behind it. *)
Fixpoint decode_utf8_replace (bs : list byte) : text :=
  match bs with
  | [] => []
  | c0 :: r0 =>
    let b0 := Byte.to_N c0 in
    if b0 <? 0x80 then b0 :: decode_utf8_replace r0
    else if b0 <? 0xC2 then REPLACEMENT :: decode_utf8_replace r0
    else if b0 <? 0xE0 then
      match r0 with
      | [] => [REPLACEMENT]
      | c1 :: r1 =>
        let b1 := Byte.to_N c1 in
        if is_cont b1 then cp2 b0 b1 :: decode_utf8_replace r1
        else REPLACEMENT :: decode_utf8_replace r0
      end
    else if b0 <? 0xF0 then
      match r0 with
      | [] => [REPLACEMENT]
      | c1 :: r1 =>
        let b1 := Byte.to_N c1 in
        if negb (is_cont b1) || bad_second3 b0 b1
        then REPLACEMENT :: decode_utf8_replace r0
        else
          match r1 with
          | [] => [REPLACEMENT]
          | c2 :: r2 =>
            let b2 := Byte.to_N c2 in
            if is_cont b2 then cp3 b0 b1 b2 :: decode_utf8_replace r2
            else REPLACEMENT :: decode_utf8_replace r1
          end
      end
    else if b0 <? 0xF5 then
      match r0 with
      | [] => [REPLACEMENT]
      | c1 :: r1 =>
        let b1 := Byte.to_N c1 in
        if negb (is_cont b1) || bad_second4 b0 b1
        then REPLACEMENT :: decode_utf8_replace r0
        else
          match r1 with
          | [] => [REPLACEMENT]
          | c2 :: r2 =>
            let b2 := Byte.to_N c2 in
            if negb (is_cont b2) then REPLACEMENT :: decode_utf8_replace r1
            else
              match r2 with
              | [] => [REPLACEMENT]
              | c3 :: r3 =>
                let b3 := Byte.to_N c3 in
                if is_cont b3 then cp4 b0 b1 b2 b3 :: decode_utf8_replace r3
                else REPLACEMENT :: decode_utf8_replace r2
              end
          end
      end
    else REPLACEMENT :: decode_utf8_replace r0
  end.

(** [p in s] on two strings: [p] occurs in [s] as a contiguous run. *)
Fixpoint starts_with (p s : text) : bool :=
  match p, s with
  | [], _ => true
  | _ :: _, [] => false
  | a :: p', b :: s' => (a =? b) && starts_with p' s'
  end.

Fixpoint str_in (p s : text) : bool :=
  starts_with p s ||
  match s with
  | [] => false
  | _ :: s' => str_in p s'
  end.

(** ** The state of the script and its outcomes *)

(** [f]: the bytes of the open file from the cursor on; [result]: the
    global list the walker appends to. *)
Record state := State { f : list byte; result : list text }.

Inductive exn := struct_error.

(** What running a piece of the script from a state gives: a value and the
    next state, an exception that nothing in the script catches, or, for the
    recursive [sv] only, a call depth beyond the one granted. *)
Inductive res (A : Type) :=
| Ok (a : A) (s : state)
| Raise (e : exn) (s : state)
| TooDeep.
Arguments Ok {A} a s.
Arguments Raise {A} e s.
Arguments TooDeep {A}.

Definition M (A : Type) := state -> res A.

Definition ret {A} (a : A) : M A := fun s => Ok a s.

Definition bind {A B} (m : M A) (k : A -> M B) : M B :=
  fun s =>
    match m s with
    | Ok a s' => k a s'
    | Raise e s' => Raise e s'
    | TooDeep => TooDeep
    end.

Notation "'let!' x ':=' m 'in' k" := (bind m (fun x => k))
  (at level 10, x name, m at level 100, k at level 200).
Notation "m ';;!' k" := (bind m (fun _ => k))
  (at level 100, k at level 200, right associativity).

(** [f.read(n)]: up to [n] bytes, fewer when the file ends first. The
    interpreter refuses a size of 2^63-1 or more and a size for which it
    cannot get a buffer; such calls are not modelled, and what is proved
    of the outcome of a read is proved where the bytes asked for are in
    the file or the size is that of a number. *)
Definition read (n : N) : M (list byte) :=
  fun s => Ok (take (N.to_nat n) (f s))
              (State (drop (N.to_nat n) (f s)) (result s)).

(** [struct.unpack(fmt, b)[0]] for a format of [w] bytes. *)
Definition unpack (w : nat) (b : list byte) : M N :=
  fun s => if decide (length b = w) then Ok (le_decode b) s
           else Raise struct_error s.

Definition unpack_I := unpack 4.
Definition unpack_Q := unpack 8.

(** [result.append(x)] *)
Definition append (x : text) : M unit :=
  fun s => Ok tt (State (f s) (result s ++ [x])).

(** [for _ in range(n): body] *)
Fixpoint for_range_nat (n : nat) (body : M unit) : M unit :=
  match n with
  | O => ret tt
  | S n' => body ;;! for_range_nat n' body
  end.

Definition for_range (n : N) (body : M unit) : M unit :=
  for_range_nat (N.to_nat n) body.

(** ** The script *)

Definition rs : M text :=
  let! b := read 8 in
  let! l := unpack_Q b in
  let! body := read l in
  ret (decode_utf8_replace body).

Definition sizes_items : list (N * N) :=
  [(0,1); (1,1); (2,2); (3,2); (4,4); (5,4); (6,4); (7,1);
   (9,8); (10,8); (11,8)].

Definition sizes : gmap N N := list_to_map sizes_items.

(** [sv(f, t)]; [depth] bounds the nesting of the calls, the outermost call
    included. *)
Fixpoint sv (depth : nat) (t : N) : M unit :=
  match depth with
  | O => fun _ => TooDeep
  | S depth' =>
    if t =? 8 then
      let! b := read 8 in
      let! l := unpack_Q b in
      read l ;;! ret tt
    else if t =? 12 then
      let! b := read 4 in
      let! at_ := unpack_I b in
      let! b' := read 8 in
      let! n := unpack_Q b' in
      for_range n (sv depth' at_)
    else
      match sizes !! t with
      | Some w => read w ;;! ret tt
      | None => ret tt
      end
  end.

(** ['chat_template' in k or 'tokenizer.ggml.model' in k] *)
Definition CHAT_TEMPLATE : text := text_of_string "chat_template".
Definition TOKENIZER_MODEL : text := text_of_string "tokenizer.ggml.model".

Definition selected (k : text) : bool :=
  str_in CHAT_TEMPLATE k || str_in TOKENIZER_MODEL k.

(** ['[' + k + ']\n' + v] *)
Definition block (k v : text) : text :=
  text_of_string "[" ++ k ++ [0x5D; 0x0A] ++ v.

(** The body of the loop over the [nk] entries. *)
Definition entry (depth : nat) : M unit :=
  let! k := rs in
  let! b := read 4 in
  let! t := unpack_I b in
  if t =? 8 then
    let! b' := read 8 in
    let! l := unpack_Q b' in
    let! body := read l in
    let v := decode_utf8_replace body in
    if selected k then append (block k v) else ret tt
  else sv depth t.

(** The [with open(...) as f:] block, from the first read to the end of the
    loop. *)
Definition walker (depth : nat) : M unit :=
  read 4 ;;! read 4 ;;!
  let! b := read 8 in
  unpack_Q b ;;!
  let! b' := read 8 in
  let! nk := unpack_Q b' in
  for_range nk (entry depth).

(** [sep.join(l)] *)
Fixpoint join (sep : text) (l : list text) : text :=
  match l with
  | [] => []
  | [x] => x
  | x :: l' => x ++ sep ++ join sep l'
  end.

Definition SEPARATOR : text := [0x0A; 0x2D; 0x2D; 0x2D; 0x0A].

(** What a run of the whole script leaves behind: the text written to the
    output file with the number printed after it, or the exception that
    ended the run before the output file was opened. *)
Inductive run :=
| Wrote (out : text) (keys_found : nat)
| Uncaught (e : exn)
| Unfinished.

Definition script (depth : nat) (file : list byte) : run :=
  match walker depth (State file []) with
  | Ok _ s => Wrote (join SEPARATOR (result s)) (length (result s))
  | Raise e _ => Uncaught e
  | TooDeep => Unfinished
  end.

(** ** The layout of a well-formed file

    The script only reads. To state what it does on complete input, the
    layout it expects is written down as an encoder: numbers, strings,
    values and entries as the reads of [rs], [sv] and [entry] take them. *)

Definition byte_of_N (n : N) : byte :=
  default x00 (Byte.of_N (n mod 256)).

Fixpoint le_encode (w : nat) (n : N) : list byte :=
  match w with
  | O => []
  | S w' => byte_of_N n :: le_encode w' (n / 256)
  end.

Definition len64 {A} (l : list A) : list byte := le_encode 8 (N.of_nat (length l)).

(** A length-prefixed string, as [rs] reads it. *)
Definition enc_string (body : list byte) : list byte := len64 body ++ body.

(** A value as it lies in the file: a scalar of a tag of [sizes] with its
    raw bytes, a string, or an array of values of one element type. *)
#[warnings="-register-all"] Inductive value :=
| VFixed (t : N) (raw : list byte)
| VString (body : list byte)
| VArray (at_ : N) (elems : list value).

Definition tag (v : value) : N :=
  match v with
  | VFixed t _ => t
  | VString _ => 8
  | VArray _ _ => 12
  end.

Fixpoint enc (v : value) : list byte :=
  match v with
  | VFixed _ raw => raw
  | VString body => enc_string body
  | VArray at_ elems => le_encode 4 at_ ++ len64 elems ++ concat (map enc elems)
  end.

(** How deep the calls of [sv] go on a value, the first call included. *)
Fixpoint nesting (v : value) : nat :=
  match v with
  | VArray _ elems => S (max_list (map nesting elems))
  | _ => 1
  end.

(** A scalar has the width of its tag, a length fits its 8 bytes, an
    element type fits its 4 bytes, and every element of an array has the
    array's element type. *)
Fixpoint well_formed (v : value) : bool :=
  match v with
  | VFixed t raw => bool_decide (sizes !! t = Some (N.of_nat (length raw)))
  | VString body => N.of_nat (length body) <? 2 ^ 64
  | VArray at_ elems =>
    (at_ <? 2 ^ 32) && (N.of_nat (length elems) <? 2 ^ 64)
    && forallb (fun e => (tag e =? at_) && well_formed e) elems
  end.

(** One metadata entry: the bytes of the key and the value. *)
Definition enc_entry (e : list byte * value) : list byte :=
  enc_string e.1 ++ le_encode 4 (tag e.2) ++ enc e.2.

Definition well_formed_entry (e : list byte * value) : bool :=
  (N.of_nat (length e.1) <? 2 ^ 64) && well_formed e.2.

(** The blocks the walker is to collect from an entry. *)
Definition captured (e : list byte * value) : list text :=
  match e.2 with
  | VString body =>
    if selected (decode_utf8_replace e.1)
    then [block (decode_utf8_replace e.1) (decode_utf8_replace body)]
    else []
  | _ => []
  end.

(** A file: 8 bytes of marker and version, the count the walker drops, the
    number of entries, the entries, and whatever follows them. *)
Definition enc_file (preamble : list byte) (tensors : N)
    (es : list (list byte * value)) (trailer : list byte) : list byte :=
  preamble ++ le_encode 8 tensors ++ len64 es
  ++ concat (map enc_entry es) ++ trailer.

(** The depth [sv] needs for the values of a list of entries. *)
Definition file_nesting (es : list (list byte * value)) : nat :=
  max_list (map (fun e => nesting e.2) es).

(** [struct.unpack('<I', f.read(4))[0]], the read of a type tag. *)
Definition read_tag : M N := let! b := read 4 in unpack_I b.

(** A list of commands run one after the other. *)
Fixpoint run_all (ms : list (M unit)) : M unit :=
  match ms with
  | [] => ret tt
  | m :: ms' => m ;;! run_all ms'
  end.

(** [s] contains [p]: what [p in s] decides. *)
Definition contains (p s : text) : Prop := exists a b, s = a ++ p ++ b.

(** ** Properties of bytes and of outcomes *)

(** A byte that is a character of its own. *)
Definition is_ascii (c : byte) : Prop := Byte.to_N c < 0x80.

(** A byte that cannot start a character: a continuation byte, C0, C1, or
    F5 and above. *)
Definition is_bad_lead (c : byte) : Prop :=
  0x80 <= Byte.to_N c < 0xC2 \/ 0xF5 <= Byte.to_N c.

(** A byte that starts a character of two, three or four bytes. *)
Definition is_lead (c : byte) : Prop := 0xC2 <= Byte.to_N c < 0xF5.

(** After a piece of the script that only skips, the cursor has moved
    forward over some bytes and [result] is as it was; if it raised, the
    file was exhausted. *)
Definition skipped (s : state) (r : res unit) : Prop :=
  match r with
  | Ok _ s' => result s' = result s /\ exists n, f s' = drop n (f s)
  | Raise _ s' => result s' = result s /\ f s' = []
  | TooDeep => True
  end.

(** After a piece of the walker the cursor has moved forward and [result]
    has grown at its end; if it raised, the file was exhausted. *)
Definition walked {A} (s : state) (r : res A) : Prop :=
  match r with
  | Ok _ s' => (exists n, f s' = drop n (f s))
               /\ exists new, result s' = result s ++ new
  | Raise e s' => f s' = [] /\ exists new, result s' = result s ++ new
  | TooDeep => True
  end.

(** The scalar tags of the format with the bytes each takes. *)
Definition scalar_widths : list (N * N) :=
  [(0,1); (1,1); (7,1); (2,2); (3,2); (4,4); (5,4); (6,4); (10,8); (11,8)].

(** ** Sample inputs *)

Definition bytes_of (s : string) : list byte := list_byte_of_string s.

(** Three string entries; the first and the third have a key to collect. *)
Definition sample_entries : list (list byte * value) :=
  [ (bytes_of "tokenizer.ggml.model", VString (bytes_of "gpt2"));
    (bytes_of "general.architecture", VString (bytes_of "qwen3"));
    (bytes_of "some.chat_template", VString (bytes_of "{{messages}}")) ].

Definition sample_preamble : list byte := bytes_of "GGUF" ++ le_encode 4 3.

(** An array of three 32-bit numbers in front of a string to collect. *)
Definition array_entries : list (list byte * value) :=
  [ (bytes_of "tokenizer.ggml.scores",
     VArray 4 [VFixed 4 (le_encode 4 1); VFixed 4 (le_encode 4 2);
               VFixed 4 (le_encode 4 3)]);
    (bytes_of "tokenizer.chat_template", VString (bytes_of "{{x}}")) ].

(** Arrays in arrays, [k] deep, around an empty array of bytes. *)
Fixpoint nest (k : nat) : value :=
  match k with
  | O => VArray 0 []
  | S k' => VArray 12 [nest k']
  end.

(** A file that ends inside the value of its only entry: the value is
    announced with 5 bytes and 2 are there. *)
Definition cut_file : list byte :=
  sample_preamble ++ le_encode 8 0 ++ le_encode 8 1
  ++ enc_string (bytes_of "chat_template") ++ le_encode 4 8
  ++ le_encode 8 5 ++ bytes_of "xy".

(** ** Notions for the whole run *)

(** A block of a selected key: the only thing the walker appends. *)
Definition is_selected_block (x : text) : Prop :=
  exists k v, selected k = true /\ x = block k v.

(** The number of entries a file announces: the 8 bytes at offset 16, as
    the walker reads [nk]. *)
Definition entry_count (file : list byte) : N :=
  le_decode (take 8 (drop 16 file)).

(** A piece of the script that leaves [result] alone, however it ends. *)
Definition kept {A} (s : state) (r : res A) : Prop :=
  match r with
  | Ok _ s' | Raise _ s' => result s' = result s
  | TooDeep => True
  end.

(** A piece of the script that has appended at most [n] items to [result],
    each the block of a selected key, however it ends. *)
Definition appended (n : nat) (s : state) (r : res unit) : Prop :=
  match r with
  | Ok _ s' | Raise _ s' =>
    exists new, result s' = result s ++ new /\ (length new <= n)%nat
                /\ Forall is_selected_block new
  | TooDeep => True
  end.

(** ** UTF-8, written down on its own

    What [decode_utf8_replace] is to do, said without it: the UTF-8 form
    of a code point as RFC 3629 has it, the bytes that may follow a lead
    byte as the Unicode standard lists them (table 3-7), and the rule of
    the ['replace'] handler that the longest run of bytes that begins a
    form and cannot be continued gives one U+FFFD. *)

(** A Unicode scalar value: a code point up to U+10FFFF, no surrogate. *)
Definition is_scalar (cp : N) : Prop :=
  cp < 0xD800 \/ (0xE000 <= cp /\ cp < 0x110000).

Definition utf8_encode (cp : N) : list byte :=
  if cp <? 0x80 then [byte_of_N cp]
  else if cp <? 0x800 then
    [byte_of_N (0xC0 + cp / 64); byte_of_N (0x80 + cp mod 64)]
  else if cp <? 0x10000 then
    [byte_of_N (0xE0 + cp / 4096); byte_of_N (0x80 + (cp / 64) mod 64);
     byte_of_N (0x80 + cp mod 64)]
  else
    [byte_of_N (0xF0 + cp / 262144); byte_of_N (0x80 + (cp / 4096) mod 64);
     byte_of_N (0x80 + (cp / 64) mod 64); byte_of_N (0x80 + cp mod 64)].

Definition utf8 (t : text) : list byte := concat (map utf8_encode t).

(** A continuation byte: 80 to BF. *)
Definition is_continuation (c : byte) : Prop := 0x80 <= Byte.to_N c < 0xC0.

(** A lead byte of a form of three or four bytes, and of four bytes. *)
Definition is_lead34 (c : byte) : Prop := 0xE0 <= Byte.to_N c < 0xF5.
Definition is_lead4 (c : byte) : Prop := 0xF0 <= Byte.to_N c < 0xF5.

(** The second byte a lead byte admits: a continuation byte, but A0 at
    least behind E0, below A0 behind ED, 90 at least behind F0 and below
    90 behind F4. *)
Definition second_low (c0 : byte) : N :=
  if Byte.to_N c0 =? 0xE0 then 0xA0
  else if Byte.to_N c0 =? 0xF0 then 0x90 else 0x80.

Definition second_high (c0 : byte) : N :=
  if Byte.to_N c0 =? 0xED then 0xA0
  else if Byte.to_N c0 =? 0xF4 then 0x90 else 0xC0.

Definition second_ok (c0 c1 : byte) : Prop :=
  second_low c0 <= Byte.to_N c1 < second_high c0.

(** A decoder of UTF-8 that replaces: the form of a scalar value gives the
    value; a byte that starts no form, and a lead byte with as many of its
    bytes as fit, cut by the end of the input or by a byte that does not
    fit, give U+FFFD, and decoding goes on at the byte that did not fit. *)
Definition utf8_with_replacement (dec : list byte -> text) : Prop :=
  dec [] = []
  /\ (forall cp r, is_scalar cp -> dec (utf8_encode cp ++ r) = cp :: dec r)
  /\ (forall c r, is_bad_lead c -> dec (c :: r) = REPLACEMENT :: dec r)
  /\ (forall c, is_lead c -> dec [c] = [REPLACEMENT])
  /\ (forall c0 c1 r, is_lead c0 -> ~ second_ok c0 c1 ->
        dec (c0 :: c1 :: r) = REPLACEMENT :: dec (c1 :: r))
  /\ (forall c0 c1, is_lead34 c0 -> second_ok c0 c1 ->
        dec [c0; c1] = [REPLACEMENT])
  /\ (forall c0 c1 c2 r,
        is_lead34 c0 -> second_ok c0 c1 -> ~ is_continuation c2 ->
        dec (c0 :: c1 :: c2 :: r) = REPLACEMENT :: dec (c2 :: r))
  /\ (forall c0 c1 c2,
        is_lead4 c0 -> second_ok c0 c1 -> is_continuation c2 ->
        dec [c0; c1; c2] = [REPLACEMENT])
  /\ (forall c0 c1 c2 c3 r,
        is_lead4 c0 -> second_ok c0 c1 -> is_continuation c2 ->
        ~ is_continuation c3 ->
        dec (c0 :: c1 :: c2 :: c3 :: r) = REPLACEMENT :: dec (c3 :: r)).

(** ** Files that end inside a number *)

(** The bytes of a value of tag [t] that end inside a number [sv] reads at
    a depth of calls within [d]: inside the length of a string, inside the
    element type or the count of an array, or so inside an element of an
    array behind complete elements. *)
Inductive cut_value : nat -> N -> list byte -> Prop :=
| cut_string_length d part :
    (length part < 8)%nat -> cut_value (S d) 8 part
| cut_array_header d part :
    (length part < 12)%nat -> cut_value (S d) 12 part
| cut_array_element d at_ n elems part :
    at_ < 2 ^ 32 -> N.of_nat (length elems) < n -> n < 2 ^ 64 ->
    forallb (fun x => (tag x =? at_) && well_formed x) elems = true ->
    (max_list (map nesting elems) <= d)%nat ->
    cut_value d at_ part ->
    cut_value (S d) 12
      (le_encode 4 at_ ++ le_encode 8 n ++ concat (map enc elems) ++ part).

(** The bytes of an entry that end inside a number: inside the length of
    the key, inside the tag, inside the length of a string value, or
    inside a number of a value that [sv] skips. *)
Inductive cut_entry (d : nat) : list byte -> Prop :=
| cut_key_length part :
    (length part < 8)%nat -> cut_entry d part
| cut_tag key part :
    N.of_nat (length key) < 2 ^ 64 -> (length part < 4)%nat ->
    cut_entry d (enc_string key ++ part)
| cut_value_length key part :
    N.of_nat (length key) < 2 ^ 64 -> (length part < 8)%nat ->
    cut_entry d (enc_string key ++ le_encode 4 8 ++ part)
| cut_skipped_value key t part :
    N.of_nat (length key) < 2 ^ 64 -> t < 2 ^ 32 -> t <> 8 ->
    cut_value d t part ->
    cut_entry d (enc_string key ++ le_encode 4 t ++ part).

(** ** Numbers and reads *)

Lemma byte_of_N_to_N n : Byte.to_N (byte_of_N n) = n mod 256.
Proof.
  unfold byte_of_N.
  destruct (Byte.of_N (n mod 256)) as [b|] eqn:E.
  - simpl. by apply Byte.to_of_N.
  - apply Byte.of_N_None_iff in E.
    pose proof (N.mod_upper_bound n 256). lia.
Qed.

Lemma length_le_encode w n : length (le_encode w n) = w.
Proof. revert n. induction w as [|w IH]; intros n; simpl; [done|]. by rewrite IH. Qed.

Lemma le_decode_encode w n :
  n < 256 ^ N.of_nat w -> le_decode (le_encode w n) = n.
Proof.
  revert n. induction w as [|w IH]; intros n Hn.
  - simpl in *. lia.
  - cbn [le_encode le_decode]. rewrite byte_of_N_to_N, IH.
    + pose proof (N.div_mod n 256). lia.
    + rewrite Nat2N.inj_succ, N.pow_succ_r' in Hn.
      apply N.Div0.div_lt_upper_bound. lia.
Qed.

Lemma length_len64 {A} (l : list A) : length (len64 l) = 8%nat.
Proof. apply length_le_encode. Qed.

Lemma le_decode_len64 {A} (l : list A) :
  N.of_nat (length l) < 2 ^ 64 -> le_decode (len64 l) = N.of_nat (length l).
Proof. intros H. apply le_decode_encode. exact H. Qed.

Lemma length_enc_string body : length (enc_string body) = (8 + length body)%nat.
Proof. unfold enc_string. by rewrite length_app, length_len64. Qed.

(** A read that finds its bytes takes exactly them. *)
Lemma read_app n b tail acc :
  length b = N.to_nat n ->
  read n (State (b ++ tail) acc) = Ok b (State tail acc).
Proof.
  intros H. unfold read. cbn [f result].
  by rewrite take_app_length', drop_app_length'.
Qed.

Lemma unpack_ok w b s : length b = w -> unpack w b s = Ok (le_decode b) s.
Proof. intros H. unfold unpack. by rewrite decide_True. Qed.

Lemma unpack_short w b s : length b <> w -> unpack w b s = Raise struct_error s.
Proof. intros H. unfold unpack. by rewrite decide_False. Qed.

(** Reading a number of [w] bytes that are there. *)
Lemma read_unpack_app w b tail acc :
  length b = w ->
  (let! x := read (N.of_nat w) in unpack w x) (State (b ++ tail) acc)
  = Ok (le_decode b) (State tail acc).
Proof.
  intros H. unfold bind. rewrite read_app by lia. by apply unpack_ok.
Qed.

(** ** [in] on strings *)

Lemma starts_with_spec p s : starts_with p s = true <-> exists b, s = p ++ b.
Proof.
  revert s. induction p as [|a p IH]; intros s.
  - simpl. split; [eauto | done].
  - destruct s as [|x s]; simpl.
    + split; [done | intros [b Hb]; discriminate].
    + rewrite andb_true_iff, N.eqb_eq, IH. split.
      * intros [-> [b ->]]. eauto.
      * intros [b Hb]. injection Hb as -> ->. eauto.
Qed.

Lemma str_in_spec p s : str_in p s = true <-> contains p s.
Proof.
  unfold contains. induction s as [|x s IH]; simpl.
  - rewrite orb_false_r, starts_with_spec. split.
    + intros [b Hb]. exists [], b. done.
    + intros (a & b & Hab). symmetry in Hab.
      apply app_eq_nil in Hab as [-> Hab]. apply app_eq_nil in Hab as [-> ->].
      by exists [].
  - rewrite orb_true_iff, starts_with_spec, IH. split.
    + intros [[b Hb] | (a & b & ->)].
      * exists [], b. done.
      * exists (x :: a), b. done.
    + intros (a & b & Hab). destruct a as [|y a].
      * left. exists b. done.
      * right. injection Hab as -> ->. eauto.
Qed.

Lemma selected_spec k :
  selected k = true <-> contains CHAT_TEMPLATE k \/ contains TOKENIZER_MODEL k.
Proof. unfold selected. by rewrite orb_true_iff, !str_in_spec. Qed.

(** ** The decoder on well-formed and on ill-formed bytes *)

Lemma decode_ascii_cons c bs :
  is_ascii c ->
  decode_utf8_replace (c :: bs) = Byte.to_N c :: decode_utf8_replace bs.
Proof.
  unfold is_ascii. intros H. cbn [decode_utf8_replace].
  destruct (N.ltb_spec (Byte.to_N c) 0x80); [done | lia].
Qed.

Lemma decode_bad_lead_cons c bs :
  is_bad_lead c ->
  decode_utf8_replace (c :: bs) = REPLACEMENT :: decode_utf8_replace bs.
Proof.
  unfold is_bad_lead. intros H. cbn [decode_utf8_replace].
  destruct (N.ltb_spec (Byte.to_N c) 0x80); [lia|].
  destruct (N.ltb_spec (Byte.to_N c) 0xC2); [done|].
  destruct (N.ltb_spec (Byte.to_N c) 0xE0); [lia|].
  destruct (N.ltb_spec (Byte.to_N c) 0xF0); [lia|].
  destruct (N.ltb_spec (Byte.to_N c) 0xF5); [lia|done].
Qed.

Lemma decode_ascii bs :
  Forall is_ascii bs -> decode_utf8_replace bs = map Byte.to_N bs.
Proof.
  induction 1 as [|c bs Hc _ IH]; [done|].
  rewrite decode_ascii_cons by done. by rewrite IH.
Qed.

(** An ill-formed byte behind plain text: the text stays, one U+FFFD stands
    where the byte was, and what follows is decoded as before. *)
Lemma decode_replaces_bad_lead a c b :
  Forall is_ascii a -> is_bad_lead c ->
  decode_utf8_replace (a ++ c :: b)
  = map Byte.to_N a ++ REPLACEMENT :: decode_utf8_replace b.
Proof.
  intros Ha Hc. induction Ha as [|x a Hx _ IH].
  - by apply decode_bad_lead_cons.
  - rewrite <- app_comm_cons, decode_ascii_cons by done. by rewrite IH.
Qed.

(** A lead byte with no continuation byte behind it is replaced, and the
    byte behind it is decoded on its own. *)
Lemma decode_replaces_broken_lead c x bs :
  is_lead c -> is_cont (Byte.to_N x) = false ->
  decode_utf8_replace (c :: x :: bs)
  = REPLACEMENT :: decode_utf8_replace (x :: bs).
Proof.
  unfold is_lead. intros Hc Hx.
  remember (x :: bs) as r0 eqn:Hr0. cbn [decode_utf8_replace].
  destruct r0 as [|c1 r1]; [done|]. injection Hr0 as -> ->.
  rewrite Hx. cbn [negb orb].
  destruct (N.ltb_spec (Byte.to_N c) 0x80); [lia|].
  destruct (N.ltb_spec (Byte.to_N c) 0xC2); [lia|].
  destruct (N.ltb_spec (Byte.to_N c) 0xE0); [done|].
  destruct (N.ltb_spec (Byte.to_N c) 0xF0); [done|].
  destruct (N.ltb_spec (Byte.to_N c) 0xF5); [done|lia].
Qed.

(** A lead byte that ends the input is replaced. *)
Lemma decode_replaces_cut_lead c :
  is_lead c -> decode_utf8_replace [c] = [REPLACEMENT].
Proof.
  unfold is_lead. intros Hc. cbn [decode_utf8_replace].
  destruct (N.ltb_spec (Byte.to_N c) 0x80); [lia|].
  destruct (N.ltb_spec (Byte.to_N c) 0xC2); [lia|].
  destruct (N.ltb_spec (Byte.to_N c) 0xE0); [done|].
  destruct (N.ltb_spec (Byte.to_N c) 0xF0); [done|].
  destruct (N.ltb_spec (Byte.to_N c) 0xF5); [done|lia].
Qed.

(** ** The width table *)

Lemma sizes_lookup t w : sizes !! t = Some w <-> (t, w) ∈ sizes_items.
Proof.
  unfold sizes. rewrite <- elem_of_list_to_map; [done|].
  compute_done.
Qed.

Lemma sizes_tag_le t w : sizes !! t = Some w -> t <= 11 /\ t <> 8.
Proof.
  rewrite sizes_lookup. unfold sizes_items. rewrite !elem_of_cons, elem_of_nil.
  intros H. repeat (destruct H as [H|H]; [simplify_eq; lia|]). done.
Qed.

Lemma sizes_unknown t : 12 < t -> sizes !! t = None.
Proof.
  intros H. destruct (sizes !! t) as [w|] eqn:E; [|done].
  apply sizes_tag_le in E. lia.
Qed.

(** ** Reading a number: the two cases *)

(** [struct.unpack(fmt, f.read(w))[0]] either finds its [w] bytes and goes on
    behind them with their value, or finds fewer, has eaten them, and
    raises. *)
Lemma read_unpack_cases w s :
  (exists b tail, f s = b ++ tail /\ length b = w /\
     forall B (k : N -> M B),
       (let! x := read (N.of_nat w) in let! y := unpack w x in k y) s
       = k (le_decode b) (State tail (result s)))
  \/ ((length (f s) < w)%nat /\
     forall B (k : N -> M B),
       (let! x := read (N.of_nat w) in let! y := unpack w x in k y) s
       = Raise struct_error (State [] (result s))).
Proof.
  destruct (decide (w <= length (f s))%nat) as [Hle|Hlt].
  - left. exists (take w (f s)), (drop w (f s)).
    split; [by rewrite take_drop|]. split; [by apply length_take_le|].
    intros B k. unfold bind, read. rewrite Nat2N.id.
    rewrite unpack_ok; [done|]. by apply length_take_le.
  - right. split; [lia|]. intros B k. unfold bind, read. rewrite Nat2N.id.
    rewrite unpack_short.
    + by rewrite drop_ge by lia.
    + rewrite length_take. lia.
Qed.

(** Split on the read of a [w]-byte number at [s], and go on in the goal
    with the case at hand: behind the bytes [b], or at the exception. *)
Tactic Notation "number_read" constr(w) constr(s)
    "as" ident(b) ident(tail) ident(Hf) ident(Hb) :=
  let Hk := fresh "Hk" in
  destruct (read_unpack_cases w s) as [(b & tail & Hf & Hb & Hk)|[Hf Hk]];
  (let n := eval vm_compute in (N.of_nat w) in
   change (N.of_nat w) with n in Hk);
  try unfold unpack_Q; try unfold unpack_I; rewrite Hk; clear Hk.

(** ** [sv], branch by branch *)

Lemma sv_string d s :
  sv (S d) 8 s
  = (let! b := read 8 in let! l := unpack_Q b in read l ;;! ret tt) s.
Proof. reflexivity. Qed.

Lemma sv_array d s :
  sv (S d) 12 s
  = (let! b := read 4 in let! at_ := unpack_I b in
     let! b' := read 8 in let! n := unpack_Q b' in
     for_range n (sv d at_)) s.
Proof. reflexivity. Qed.

Lemma sv_other d t s :
  t <> 8 -> t <> 12 ->
  sv (S d) t s
  = match sizes !! t with
    | Some w => Ok tt (State (drop (N.to_nat w) (f s)) (result s))
    | None => Ok tt s
    end.
Proof.
  intros H8 H12. cbn [sv].
  destruct (N.eqb_spec t 8); [done|]. destruct (N.eqb_spec t 12); [done|].
  by destruct (sizes !! t).
Qed.

Lemma for_range_run_all n body :
  for_range n body = run_all (replicate (N.to_nat n) body).
Proof.
  unfold for_range. induction (N.to_nat n) as [|k IH]; [done|].
  simpl. by rewrite IH.
Qed.


(** ** What a skip does to the state *)

Lemma skipped_bind (m : M unit) (k : M unit) s :
  skipped s (m s) ->
  (forall s', skipped s' (k s')) ->
  skipped s ((m ;;! k) s).
Proof.
  intros Hm Hk. unfold bind. destruct (m s) as [[] s1|e s1|]; [|done..].
  specialize (Hk s1). destruct Hm as [Hr [n Hn]].
  destruct (k s1) as [[] s2|e s2|]; simpl in *.
  - destruct Hk as [Hr' [n' Hn']]. split; [congruence|].
    exists (n + n')%nat. by rewrite Hn', Hn, drop_drop.
  - destruct Hk as [Hr' Hn']. split; [congruence|done].
  - done.
Qed.

Lemma for_range_nat_skipped n body :
  (forall s, skipped s (body s)) ->
  forall s, skipped s (for_range_nat n body s).
Proof.
  intros Hb. induction n as [|n IH]; intros s.
  - simpl. split; [done|]. by exists 0%nat.
  - cbn [for_range_nat]. by apply skipped_bind.
Qed.

Lemma sv_skipped d t s : skipped s (sv d t s).
Proof.
  revert t s. induction d as [|d IH]; intros t s; [done|].
  destruct (decide (t = 8)) as [->|H8]; [|destruct (decide (t = 12)) as [->|H12]].
  - rewrite sv_string.
    number_read 8%nat s as b tail Hf Hb.
    + cbn. split; [done|]. exists (8 + N.to_nat (le_decode b))%nat.
      rewrite Hf, <- drop_drop. by rewrite drop_app_length'.
    + done.
  - rewrite sv_array.
    number_read 4%nat s as b tail Hf Hb; [|done].
    number_read 8%nat (State tail (result s)) as b' tail' Hf' Hb'; [|done].
    cbn [f result] in *.
    pose proof (for_range_nat_skipped (N.to_nat (le_decode b'))
                  (sv d (le_decode b)) (IH _) (State tail' (result s))) as H.
    unfold for_range.
    destruct (for_range_nat _ _ _) as [[] s'|e s'|]; cbn [skipped f result] in *.
    + destruct H as [Hr [n Hn]]. split; [done|]. exists (12 + n)%nat.
      rewrite Hn, Hf, Hf'.
      change (12 + n)%nat with (4 + (8 + n))%nat. rewrite <- !drop_drop.
      by rewrite drop_app_length', drop_app_length'.
    + done.
    + done.
  - rewrite sv_other by done. destruct (sizes !! t) as [w|]; cbn.
    + split; [done|]. by exists (N.to_nat w).
    + split; [done|]. by exists 0%nat.
Qed.

Lemma sv_result_unchanged d t s a s' : sv d t s = Ok a s' -> result s' = result s.
Proof. intros H. pose proof (sv_skipped d t s) as Hs. rewrite H in Hs. apply Hs. Qed.

Lemma sv_length_le d t s a s' :
  sv d t s = Ok a s' -> (length (f s') <= length (f s))%nat.
Proof.
  intros H. pose proof (sv_skipped d t s) as Hs. rewrite H in Hs.
  destruct Hs as [_ [n ->]]. rewrite length_drop. lia.
Qed.

(** ** The depth [sv] needs *)

Lemma for_range_nat_not_too_deep (P : state -> Prop) n body :
  (forall s, P s -> body s <> TooDeep) ->
  (forall s a s', P s -> body s = Ok a s' -> P s') ->
  forall s, P s -> for_range_nat n body s <> TooDeep.
Proof.
  intros Hb Hp. induction n as [|n IH]; intros s Hs; [done|].
  cbn [for_range_nat]. unfold bind.
  destruct (body s) as [a s1|e s1|] eqn:E; [|done|].
  - apply IH. by eapply Hp.
  - by apply Hb in E.
Qed.

(** The array branch, with the twelve bytes it reads first made explicit. *)
Lemma sv_array_cases d s :
  sv (S d) 12 s
  = if decide (12 <= length (f s))%nat
    then for_range (le_decode (take 8 (drop 4 (f s))))
                   (sv d (le_decode (take 4 (f s))))
                   (State (drop 12 (f s)) (result s))
    else Raise struct_error (State [] (result s)).
Proof.
  rewrite sv_array.
  number_read 4%nat s as b tail Hf Hb.
  - number_read 8%nat (State tail (result s)) as b' tail' Hf' Hb';
      cbn [f result] in *; try subst tail.
    + rewrite decide_True by (rewrite Hf, !length_app; lia).
      rewrite Hf. f_equal.
      * by rewrite drop_app_length', take_app_length'.
      * by rewrite take_app_length'.
      * f_equal. change 12%nat with (4 + 8)%nat. rewrite <- drop_drop.
        by rewrite drop_app_length', drop_app_length'.
    + rewrite decide_False; [done|]. rewrite Hf, length_app. lia.
  - rewrite decide_False; [done|lia].
Qed.

Lemma sv_not_too_deep d t s : (length (f s) < 12 * d)%nat -> sv d t s <> TooDeep.
Proof.
  revert t s. induction d as [|d IH]; intros t s Hlen; [lia|].
  destruct (decide (t = 8)) as [->|H8]; [|destruct (decide (t = 12)) as [->|H12]].
  - rewrite sv_string.
    number_read 8%nat s as b tail Hf Hb; done.
  - rewrite sv_array_cases. case_decide; [|done].
    apply (for_range_nat_not_too_deep (fun s => length (f s) < 12 * d)%nat).
    + intros s0 Hs0. by apply IH.
    + intros s0 a s0' Hs0 Hok. apply sv_length_le in Hok. lia.
    + cbn [f]. rewrite length_drop. lia.
  - rewrite sv_other by done. by destruct (sizes !! t).
Qed.

Lemma for_range_nat_ext n (b1 b2 : M unit) s :
  (forall s, b1 s <> TooDeep -> b2 s = b1 s) ->
  for_range_nat n b1 s <> TooDeep ->
  for_range_nat n b2 s = for_range_nat n b1 s.
Proof.
  intros Hb. revert s. induction n as [|n IH]; intros s; [done|].
  cbn [for_range_nat]. unfold bind.
  destruct (b1 s) as [a s1|e s1|] eqn:E; [| |done].
  - intros H. rewrite Hb by congruence. rewrite E. by apply IH.
  - intros _. rewrite Hb by congruence. by rewrite E.
Qed.

(** Granting more depth changes nothing once the depth is enough. *)
Lemma sv_depth_mono d d' t s :
  (d <= d')%nat -> sv d t s <> TooDeep -> sv d' t s = sv d t s.
Proof.
  revert d' t s. induction d as [|d IH]; intros d' t s Hle Hd; [done|].
  destruct d' as [|d']; [lia|].
  destruct (decide (t = 8)) as [->|H8]; [|destruct (decide (t = 12)) as [->|H12]].
  - by rewrite !sv_string.
  - rewrite !sv_array_cases in *. case_decide; [|done].
    unfold for_range in *. apply for_range_nat_ext; [|done].
    intros s0 Hs0. apply IH; [lia|done].
  - by rewrite !sv_other.
Qed.

(** ** Complete input: every read finds its bytes *)

Lemma bind_ok {A B} (m : M A) (k : A -> M B) s a s' :
  m s = Ok a s' -> (let! x := m in k x) s = k a s'.
Proof. intros H. unfold bind. by rewrite H. Qed.

Lemma bind_assoc {A B C} (m : M A) (k : A -> M B) (k' : B -> M C) s :
  (let! y := (let! x := m in k x) in k' y) s
  = (let! x := m in let! y := k x in k' y) s.
Proof. unfold bind. by destruct (m s). Qed.

Lemma read_I_k {B} (k : N -> M B) b tail acc :
  length b = 4%nat ->
  (let! x := read 4 in let! y := unpack_I x in k y) (State (b ++ tail) acc)
  = k (le_decode b) (State tail acc).
Proof.
  intros H. unfold bind. rewrite read_app by (rewrite H; reflexivity).
  unfold unpack_I. by rewrite unpack_ok.
Qed.

Lemma read_Q_k {B} (k : N -> M B) b tail acc :
  length b = 8%nat ->
  (let! x := read 8 in let! y := unpack_Q x in k y) (State (b ++ tail) acc)
  = k (le_decode b) (State tail acc).
Proof.
  intros H. unfold bind. rewrite read_app by (rewrite H; reflexivity).
  unfold unpack_Q. by rewrite unpack_ok.
Qed.

Lemma rs_enc_string body tail acc :
  N.of_nat (length body) < 2 ^ 64 ->
  rs (State (enc_string body ++ tail) acc)
  = Ok (decode_utf8_replace body) (State tail acc).
Proof.
  intros H. unfold rs, enc_string. rewrite <- app_assoc.
  rewrite read_Q_k by apply length_len64. rewrite le_decode_len64 by done.
  unfold bind. rewrite read_app by (by rewrite Nat2N.id). done.
Qed.

Lemma sv_enc_string d body tail acc :
  N.of_nat (length body) < 2 ^ 64 ->
  sv (S d) 8 (State (enc_string body ++ tail) acc) = Ok tt (State tail acc).
Proof.
  intros H. rewrite sv_string. unfold enc_string. rewrite <- app_assoc.
  rewrite read_Q_k by apply length_len64. rewrite le_decode_len64 by done.
  unfold bind. rewrite read_app by (by rewrite Nat2N.id). done.
Qed.

(** A loop whose body takes one encoded item off the front each time takes
    them all, in order, and stops in front of what follows. *)
Lemma for_range_nat_items {A} (enc_item : A -> list byte)
    (out : A -> list text) (body : M unit) (items : list A) tail acc :
  Forall (fun x => forall tail acc,
            body (State (enc_item x ++ tail) acc)
            = Ok tt (State tail (acc ++ out x))) items ->
  for_range_nat (length items) body
    (State (concat (map enc_item items) ++ tail) acc)
  = Ok tt (State tail (acc ++ concat (map out items))).
Proof.
  intros H. revert acc. induction H as [|x items Hx _ IH]; intros acc.
  - simpl. by rewrite app_nil_r.
  - cbn [length for_range_nat map concat]. rewrite <- app_assoc.
    unfold bind. rewrite Hx, IH. by rewrite app_assoc.
Qed.

Lemma value_ind_nested (P : value -> Prop) :
  (forall t raw, P (VFixed t raw)) ->
  (forall body, P (VString body)) ->
  (forall at_ elems, Forall P elems -> P (VArray at_ elems)) ->
  forall v, P v.
Proof.
  intros Hfix Hstr Harr. fix IH 1. intros [t raw|body|at_ elems].
  - apply Hfix.
  - apply Hstr.
  - apply Harr. induction elems as [|e es IHes]; constructor; [apply IH|apply IHes].
Qed.

Lemma well_formed_tag v : well_formed v = true -> tag v <= 12.
Proof.
  destruct v as [t raw|body|at_ elems]; simpl; [|lia..].
  intros H. apply bool_decide_eq_true in H. apply sizes_tag_le in H. lia.
Qed.

(** [sv] on a well-formed value takes exactly the bytes of the value. *)
Lemma sv_skips_value v :
  forall d tail acc,
    well_formed v = true -> (nesting v <= d)%nat ->
    sv d (tag v) (State (enc v ++ tail) acc) = Ok tt (State tail acc).
Proof.
  induction v as [t raw|body|at_ elems IH] using value_ind_nested;
    intros d tail acc Hwf Hd; (destruct d as [|d]; [simpl in Hd; lia|]).
  - simpl in Hwf. apply bool_decide_eq_true in Hwf.
    pose proof (sizes_tag_le _ _ Hwf) as [Hle H8].
    cbn [tag enc]. rewrite sv_other by lia. rewrite Hwf, Nat2N.id.
    cbn [f result]. by rewrite drop_app_length.
  - simpl in Hwf. apply N.ltb_lt in Hwf. by apply sv_enc_string.
  - cbn [well_formed] in Hwf. rewrite !andb_true_iff in Hwf.
    destruct Hwf as [[Hat Hn] Hall].
    apply N.ltb_lt in Hat, Hn. cbn [nesting] in Hd.
    cbn [tag enc]. rewrite sv_array, <- !app_assoc.
    rewrite read_I_k by apply length_le_encode.
    rewrite le_decode_encode by exact Hat.
    rewrite read_Q_k by apply length_len64.
    rewrite le_decode_len64 by done.
    unfold for_range. rewrite Nat2N.id.
    rewrite (for_range_nat_items enc (fun _ => [])).
    + f_equal. f_equal. clear. induction elems; simpl; [by rewrite app_nil_r|done].
    + rewrite forallb_forall in Hall. rewrite Forall_forall in IH |- *.
      intros e He tail' acc'. rewrite app_nil_r.
      pose proof (proj1 (list_elem_of_In _ _) He) as HIn.
      specialize (Hall e HIn). apply andb_true_iff in Hall as [Htag Hwf].
      apply N.eqb_eq in Htag. rewrite <- Htag.
      apply IH; [done..|].
      assert (nesting e ≤ max_list (map nesting elems))%nat; [|lia].
      apply max_list_elem_of_le, list_elem_of_In, in_map, HIn.
Qed.

(** ** One entry *)

(** The walker reads the value of a string entry with the reads of [rs]. *)
Lemma entry_unfold d s :
  entry d s
  = (let! k := rs in
     let! t := read_tag in
     if t =? 8 then
       let! v := rs in
       if selected k then append (block k v) else ret tt
     else sv d t) s.
Proof.
  unfold entry, rs, read_tag, bind, read, unpack_Q, unpack_I, unpack, ret.
  cbn [f result].
  repeat (case_decide; try done). destruct (_ =? 8); [|done].
  repeat (case_decide; try done).
Qed.

Lemma entry_enc d e tail acc :
  well_formed_entry e = true -> tag e.2 = 8 \/ (nesting e.2 <= d)%nat ->
  entry d (State (enc_entry e ++ tail) acc)
  = Ok tt (State tail (acc ++ captured e)).
Proof.
  destruct e as [kb v]. unfold well_formed_entry, enc_entry, captured.
  cbn [fst snd]. rewrite andb_true_iff, N.ltb_lt. intros [Hk Hv] Hd.
  rewrite entry_unfold, <- !app_assoc.
  rewrite (bind_ok _ _ _ _ _ (rs_enc_string _ _ _ Hk)).
  unfold read_tag at 1. unfold bind at 1.
  assert (Htag : tag v < 256 ^ N.of_nat 4).
  { apply well_formed_tag in Hv. change (256 ^ N.of_nat 4) with 4294967296. lia. }
  unfold bind at 1. rewrite read_app by (by rewrite length_le_encode).
  unfold unpack_I. rewrite unpack_ok by apply length_le_encode.
  rewrite le_decode_encode by done.
  destruct v as [t raw|body|at_ elems].
  - assert (t <> 8) as H8.
    { simpl in Hv. apply bool_decide_eq_true in Hv. apply sizes_tag_le in Hv. tauto. }
    cbn [tag] in *. destruct (N.eqb_spec t 8); [done|].
    destruct Hd as [?|Hd]; [done|].
    rewrite (sv_skips_value (VFixed t raw)) by done. by rewrite app_nil_r.
  - cbn [tag enc]. change (8 =? 8) with true. cbv iota.
    simpl in Hv. apply N.ltb_lt in Hv.
    rewrite (bind_ok _ _ _ _ _ (rs_enc_string _ _ _ Hv)).
    destruct (selected _); [done|]. by rewrite app_nil_r.
  - cbn [tag] in *. change (12 =? 8) with false. cbv iota.
    destruct Hd as [?|Hd]; [done|].
    rewrite (sv_skips_value (VArray at_ elems)) by done. by rewrite app_nil_r.
Qed.


(** ** What the walker does to the state *)

Lemma walked_bind {A B} (m : M A) (k : A -> M B) s :
  walked s (m s) ->
  (forall a s', walked s' (k a s')) ->
  walked s ((let! x := m in k x) s).
Proof.
  intros Hm Hk. unfold bind. destruct (m s) as [a s1|e s1|]; [|done..].
  specialize (Hk a s1). destruct Hm as [[n Hn] [new Hnew]].
  destruct (k a s1) as [b s2|e s2|]; simpl in *; [| |done].
  - destruct Hk as [[n' Hn'] [new' Hnew']]. split.
    + exists (n + n')%nat. by rewrite Hn', Hn, drop_drop.
    + exists (new ++ new'). by rewrite Hnew', Hnew, app_assoc.
  - destruct Hk as [Hn' [new' Hnew']]. split; [done|].
    exists (new ++ new'). by rewrite Hnew', Hnew, app_assoc.
Qed.

Lemma skipped_walked s r : skipped s r -> walked s r.
Proof.
  destruct r as [[] s'|e s'|]; simpl; [| |done].
  - intros [Hr Hn]. split; [done|]. exists []. by rewrite app_nil_r.
  - intros [Hr Hn]. split; [done|]. exists []. by rewrite app_nil_r.
Qed.

Lemma read_walked n s : walked s (read n s).
Proof. split; [by eexists|]. exists []. by rewrite app_nil_r. Qed.

Lemma unpack_after_read_walked w n s :
  N.to_nat n = w -> walked s ((let! b := read n in unpack w b) s).
Proof.
  intros <-. unfold bind, read, unpack. case_decide as H; simpl.
  - split; [by eexists|]. exists []. by rewrite app_nil_r.
  - split; [|exists []; by rewrite app_nil_r].
    rewrite length_take in H. apply drop_ge. lia.
Qed.

Lemma rs_walked s : walked s (rs s).
Proof.
  assert (rs s = (let! l := (let! b := read 8 in unpack_Q b) in
                  let! body := read l in ret (decode_utf8_replace body)) s) as ->.
  { by rewrite bind_assoc. }
  apply walked_bind; [by apply unpack_after_read_walked|].
  intros l s1. apply walked_bind; [apply read_walked|].
  intros body s2. split; [by exists 0%nat|]. exists []. by rewrite app_nil_r.
Qed.

Lemma entry_walked d s : walked s (entry d s).
Proof.
  rewrite entry_unfold. apply walked_bind; [apply rs_walked|].
  intros k s1. apply walked_bind; [by apply unpack_after_read_walked|].
  intros t s2. destruct (t =? 8).
  - apply walked_bind; [apply rs_walked|]. intros v s3.
    destruct (selected k); simpl.
    + split; [by exists 0%nat|]. by eexists.
    + split; [by exists 0%nat|]. exists []. by rewrite app_nil_r.
  - apply skipped_walked, sv_skipped.
Qed.

Lemma for_range_nat_walked n (body : M unit) :
  (forall s, walked s (body s)) ->
  forall s, walked s (for_range_nat n body s).
Proof.
  intros Hb. induction n as [|n IH]; intros s.
  - split; [by exists 0%nat|]. exists []. by rewrite app_nil_r.
  - cbn [for_range_nat]. apply walked_bind; [apply Hb|]. intros _. apply IH.
Qed.

Lemma walker_walked d s : walked s (walker d s).
Proof.
  unfold walker.
  apply walked_bind; [apply read_walked|]. intros _ s1.
  apply walked_bind; [apply read_walked|]. intros _ s2.
  assert (forall (k : N -> M unit) s,
             (forall a s', walked s' (k a s')) ->
             walked s ((let! b := read 8 in let! x := unpack_Q b in k x) s)) as Hnum.
  { intros k s0 Hk.
    assert ((let! b := read 8 in let! x := unpack_Q b in k x) s0
            = (let! x := (let! b := read 8 in unpack_Q b) in k x) s0) as ->.
    { by rewrite bind_assoc. }
    apply walked_bind; [by apply unpack_after_read_walked|done]. }
  apply Hnum. intros _ s3. apply Hnum. intros nk s4.
  apply for_range_nat_walked, entry_walked.
Qed.

(** ** The walker on a whole file *)

Lemma read_skip_k {B} (k : M B) n s :
  (read n ;;! k) s = k (State (drop (N.to_nat n) (f s)) (result s)).
Proof. reflexivity. Qed.

Lemma walker_header d pre cnt nkb rest acc :
  length pre = 8%nat -> length cnt = 8%nat -> length nkb = 8%nat ->
  walker d (State (pre ++ cnt ++ nkb ++ rest) acc)
  = for_range (le_decode nkb) (entry d) (State rest acc).
Proof.
  intros Hpre Hcnt Hnk. unfold walker. rewrite !read_skip_k. cbn [f result].
  rewrite drop_drop, drop_app_length' by (rewrite Hpre; reflexivity).
  rewrite read_Q_k by done. by rewrite read_Q_k.
Qed.

Lemma file_nesting_le es d e :
  (file_nesting es <= d)%nat -> e ∈ es -> (nesting e.2 <= d)%nat.
Proof.
  unfold file_nesting. intros Hd He.
  assert (nesting e.2 ≤ max_list (map (fun e => nesting e.2) es))%nat; [|lia].
  apply max_list_elem_of_le, list_elem_of_In.
  apply (in_map (fun e => nesting e.2)). by apply list_elem_of_In.
Qed.

Lemma entries_loop d es trailer acc :
  forallb well_formed_entry es = true -> (file_nesting es <= d)%nat ->
  for_range_nat (length es) (entry d)
    (State (concat (map enc_entry es) ++ trailer) acc)
  = Ok tt (State trailer (acc ++ concat (map captured es))).
Proof.
  intros Hwf Hd. apply for_range_nat_items. rewrite Forall_forall.
  intros e He tail acc'. apply entry_enc.
  - rewrite forallb_forall in Hwf. by apply Hwf, list_elem_of_In.
  - right. by eapply file_nesting_le.
Qed.

Lemma elems_loop d at_ elems rest acc :
  forallb (fun x => (tag x =? at_) && well_formed x) elems = true ->
  (max_list (map nesting elems) <= d)%nat ->
  for_range_nat (length elems) (sv d at_)
    (State (concat (map enc elems) ++ rest) acc)
  = Ok tt (State rest acc).
Proof.
  intros Hall Hd.
  rewrite (for_range_nat_items enc (fun _ => [])).
  - f_equal. f_equal. clear. induction elems; simpl; [by rewrite app_nil_r|done].
  - rewrite forallb_forall in Hall. rewrite Forall_forall.
    intros e He tail' acc'. rewrite app_nil_r.
    pose proof (proj1 (list_elem_of_In _ _) He) as HIn.
    specialize (Hall e HIn). apply andb_true_iff in Hall as [Htag Hwf].
    apply N.eqb_eq in Htag. rewrite <- Htag.
    apply sv_skips_value; [done|].
    assert (nesting e ≤ max_list (map nesting elems))%nat; [|lia].
    apply max_list_elem_of_le, list_elem_of_In, in_map, HIn.
Qed.

Lemma rs_result s k s1 : rs s = Ok k s1 -> result s1 = result s.
Proof.
  unfold rs, bind, read, unpack_Q, unpack, ret. cbn [f result].
  case_decide; [|done]. by intros [= _ <-].
Qed.

Lemma read_tag_result s t s1 : read_tag s = Ok t s1 -> result s1 = result s.
Proof.
  unfold read_tag, bind, read, unpack_I, unpack. cbn [f result].
  case_decide; [|done]. by intros [= _ <-].
Qed.

Lemma app_singleton_ne {A} (l : list A) x : l ++ [x] <> l.
Proof. intros H. apply (f_equal length) in H. rewrite length_app in H. simpl in H. lia. Qed.

(** The depth that the length of the input pays for is enough for the
    whole run. *)
Lemma entry_not_too_deep d s : (length (f s) < 12 * d)%nat -> entry d s <> TooDeep.
Proof.
  intros Hlen. rewrite entry_unfold. unfold bind.
  pose proof (rs_walked s) as Hrs.
  destruct (rs s) as [k s1|e s1|] eqn:Ers; [|done|].
  - pose proof (unpack_after_read_walked 4 4 s1 eq_refl) as Ht.
    fold unpack_I in Ht. fold read_tag in Ht.
    destruct (read_tag s1) as [t s2|e s2|] eqn:Et; [|done|].
    + destruct Hrs as [[n Hn] _]. destruct Ht as [[n' Hn'] _].
      assert (length (f s2) < 12 * d)%nat.
      { rewrite Hn', Hn, !length_drop. lia. }
      destruct (t =? 8).
      * destruct (rs s2) as [v s3|e s3|] eqn:Ev; [|done|].
        -- by destruct (selected k).
        -- revert Ev. unfold rs, bind, read, unpack_Q, unpack, ret.
           by case_decide.
      * by apply sv_not_too_deep.
    + revert Et. unfold read_tag, bind, read, unpack_I, unpack. by case_decide.
  - revert Ers. unfold rs, bind, read, unpack_Q, unpack, ret. by case_decide.
Qed.

Lemma walker_not_too_deep d s : (length (f s) < 12 * d)%nat -> walker d s <> TooDeep.
Proof.
  intros Hlen. unfold walker. rewrite !read_skip_k.
  set (s2 := State _ _).
  assert (length (f s2) < 12 * d)%nat as H2.
  { subst s2. cbn [f]. rewrite !length_drop. lia. }
  clearbody s2. clear s Hlen.
  number_read 8%nat s2 as b tail Hf Hb; [|done].
  number_read 8%nat (State tail (result s2)) as b' tail' Hf' Hb'; [|done].
  cbn [f result] in *.
  apply (for_range_nat_not_too_deep (fun s => length (f s) < 12 * d)%nat).
  - intros s0 Hs0. by apply entry_not_too_deep.
  - intros s0 a s0' Hs0 Hok. pose proof (entry_walked d s0) as Hw.
    rewrite Hok in Hw. destruct Hw as [[n Hn] _]. rewrite Hn, length_drop. lia.
  - cbn [f]. rewrite Hf, Hf', !length_app in H2. lia.
Qed.

Lemma script_finishes file : script (S (length file)) file <> Unfinished.
Proof.
  unfold script.
  pose proof (walker_not_too_deep (S (length file)) (State file [])) as H.
  destruct (walker _ _); [done|done|]. exfalso. apply H; [cbn [f]; lia|done].
Qed.

Lemma scalar_widths_sizes t w :
  (t, w) ∈ scalar_widths -> sizes !! t = Some w /\ t <> 8 /\ t <> 12.
Proof.
  unfold scalar_widths. rewrite !elem_of_cons, elem_of_nil.
  intros H. repeat (destruct H as [H|H]; [simplify_eq; by repeat split|]). done.
Qed.

Lemma unknown_tag_iff t :
  sizes !! t = None /\ t <> 8 /\ t <> 12 <-> 12 < t.
Proof.
  split.
  - intros (Hs & H8 & H12).
    destruct (decide (12 < t)) as [|Hle]; [done|]. exfalso.
    assert (t ∈ [0;1;2;3;4;5;6;7;8;9;10;11;12]) as Hin.
    { assert (exists k, (k < 13)%nat /\ t = N.of_nat k) as (k & Hk & ->).
      { exists (N.to_nat t). lia. }
      do 13 (destruct k as [|k]; [set_solver|]). lia. }
    rewrite !elem_of_cons, elem_of_nil in Hin.
    repeat (destruct Hin as [->|Hin]; [by (done || vm_compute in Hs)|]). done.
  - intros H. split; [by apply sizes_unknown|lia].
Qed.

(** * The claims *)

(** ** C7: a tag [sv] does not know *)

(** C7. For a tag that is no key of [sizes], not 8 and not 12 (these are
    the tags above 12, 13 among them), [sv] returns at once: the cursor
    and [result] are as before, nothing is raised, no call is made. *)
Theorem sv_unknown_tag_is_noop d t s :
  sizes !! t = None -> t <> 8 -> t <> 12 ->
  sv (S d) t s = Ok tt s /\ 12 < t.
Proof.
  intros Hs H8 H12. split.
  - rewrite sv_other by done. by rewrite Hs.
  - by apply unknown_tag_iff.
Qed.

Lemma sv_unknown_tag_is_noop_witness :
  sv 1 13 (State (bytes_of "abc") []) = Ok tt (State (bytes_of "abc") [])
  /\ 12 < 13.
Proof.
  apply (sv_unknown_tag_is_noop 0 13 (State (bytes_of "abc") []));
    [reflexivity | lia | lia].
Defined.

(** ** C4: the scalars *)

(** C4. For each scalar tag, [sv] moves the cursor over exactly the width
    of the tag: 1 byte for tags 0, 1 and 7, 2 bytes for 2 and 3, 4 bytes
    for 4, 5 and 6, 8 bytes for 10 and 11. It does so at depth 1, that is
    without a call to itself, and where the file is shorter than the width
    it takes what is left. *)
Theorem sv_scalar_width t w d raw tail acc :
  (t, w) ∈ scalar_widths -> length raw = N.to_nat w ->
  sv (S d) t (State (raw ++ tail) acc) = Ok tt (State tail acc)
  /\ forall s, sv 1 t s = Ok tt (State (drop (N.to_nat w) (f s)) (result s)).
Proof.
  intros Hin Hlen. apply scalar_widths_sizes in Hin as (Hs & H8 & H12). split.
  - rewrite sv_other, Hs by done. cbn [f result].
    by rewrite drop_app_length'.
  - intros s. by rewrite sv_other, Hs.
Qed.

Lemma sv_scalar_width_witness :
  sv 1 4 (State (le_encode 4 7 ++ bytes_of "rest") [])
  = Ok tt (State (bytes_of "rest") []).
Proof.
  apply (sv_scalar_width 4 4 0 (le_encode 4 7) (bytes_of "rest") []);
    [compute_done | reflexivity].
Defined.

(** ** C2: tag 12 is the array, tag 9 is eight bytes *)

(** C2. [sizes] gives tag 9 the width 8 and has no entry for tag 12. On tag
    9 [sv] moves over exactly 8 bytes, whatever they are, without a call to
    itself. On tag 12 it reads an element type and a count and calls itself
    once for each element: where the elements are in the file, the cursor
    ends behind the last of them. The same bytes under tag 9 leave the
    cursor 8 bytes in, in the middle of the count. *)
Theorem sv_array_is_12_and_9_is_scalar d b e c tail acc :
  length b = 8%nat -> length e = 4%nat -> length c = 8%nat ->
  sizes !! 9 = Some 8 /\ sizes !! 12 = None
  /\ sv (S d) 9 (State (b ++ tail) acc) = Ok tt (State tail acc)
  /\ sv 1 9 (State (e ++ c ++ tail) acc)
     = Ok tt (State (drop 4 c ++ tail) acc)
  /\ sv (S d) 12 (State (e ++ c ++ tail) acc)
     = run_all (replicate (N.to_nat (le_decode c)) (sv d (le_decode e)))
               (State tail acc)
  /\ forall elems rest,
       le_decode c = N.of_nat (length elems) ->
       forallb (fun x => (tag x =? le_decode e) && well_formed x) elems = true ->
       (max_list (map nesting elems) <= d)%nat ->
       tail = concat (map enc elems) ++ rest ->
       sv (S d) 12 (State (e ++ c ++ tail) acc) = Ok tt (State rest acc).
Proof.
  intros Hb He Hc. split; [reflexivity|]. split; [reflexivity|].
  assert (sizes !! 9 = Some 8) as H9 by reflexivity.
  assert (sv (S d) 12 (State (e ++ c ++ tail) acc)
          = for_range (le_decode c) (sv d (le_decode e)) (State tail acc)) as Hsv.
  { rewrite sv_array. rewrite read_I_k by done. by rewrite read_Q_k. }
  split; [|split; [|split]].
  - rewrite sv_other, H9 by done. cbn [f result].
    by rewrite drop_app_length'.
  - rewrite sv_other, H9 by done. cbn [f result]. do 2 f_equal.
    change (N.to_nat 8) with (4 + 4)%nat. rewrite <- drop_drop.
    rewrite drop_app_length' by done. by rewrite drop_app_le by lia.
  - by rewrite Hsv, for_range_run_all.
  - intros elems rest Hn Hall Hd ->. rewrite Hsv. unfold for_range.
    rewrite Hn, Nat2N.id. by apply elems_loop.
Qed.

(** Three 32-bit numbers: under tag 12 the cursor ends behind them, under
    tag 9 it ends behind the first 8 bytes of the header. *)
Lemma sv_array_is_12_and_9_is_scalar_witness :
  sv 2 12 (State (le_encode 4 4 ++ le_encode 8 3
                  ++ bytes_of "0123456789ab" ++ bytes_of "next") [])
  = Ok tt (State (bytes_of "next") [])
  /\ sv 1 9 (State (le_encode 4 4 ++ le_encode 8 3
                    ++ bytes_of "0123456789ab" ++ bytes_of "next") [])
     = Ok tt (State ([x00; x00; x00; x00]
                     ++ bytes_of "0123456789ab" ++ bytes_of "next") []).
Proof.
  pose proof (sv_array_is_12_and_9_is_scalar 1 (le_encode 8 0) (le_encode 4 4)
                (le_encode 8 3) (bytes_of "0123456789ab" ++ bytes_of "next") []
                eq_refl eq_refl eq_refl) as (_ & _ & _ & H9 & _ & H12).
  split; [|exact H9].
  apply (H12 [VFixed 4 (bytes_of "0123"); VFixed 4 (bytes_of "4567");
              VFixed 4 (bytes_of "89ab")] (bytes_of "next")).
  - reflexivity.
  - vm_compute. reflexivity.
  - vm_compute. lia.
  - reflexivity.
Defined.

(** ** C3: the array branch *)

Lemma nest_well_formed k : well_formed (nest k) = true.
Proof.
  induction k as [|k IH]; [done|]. cbn [nest well_formed forallb].
  assert (tag (nest k) = 12) as -> by (by destruct k). rewrite IH. reflexivity.
Qed.

Lemma nest_nesting k : nesting (nest k) = S k.
Proof. induction k as [|k IH]; [done|]. simpl. rewrite IH. lia. Qed.

(** C3. On the array tag [sv] takes 4 bytes as the element type, then 8
    bytes as the count N, then calls itself N times, one call behind the
    other, on the element type. Where the bytes that follow are N
    well-formed elements of that type, arrays among them and arrays in
    those to any depth [d], the calls take exactly the elements and leave
    the cursor behind the last. *)
Theorem sv_array_recursion d e c tail acc :
  length e = 4%nat -> length c = 8%nat ->
  sv (S d) 12 (State (e ++ c ++ tail) acc)
  = run_all (replicate (N.to_nat (le_decode c)) (sv d (le_decode e)))
            (State tail acc)
  /\ forall elems rest,
       le_decode c = N.of_nat (length elems) ->
       forallb (fun x => (tag x =? le_decode e) && well_formed x) elems = true ->
       (max_list (map nesting elems) <= d)%nat ->
       tail = concat (map enc elems) ++ rest ->
       sv (S d) 12 (State (e ++ c ++ tail) acc) = Ok tt (State rest acc).
Proof.
  intros He Hc.
  assert (sv (S d) 12 (State (e ++ c ++ tail) acc)
          = for_range (le_decode c) (sv d (le_decode e)) (State tail acc)) as Hsv.
  { rewrite sv_array. rewrite read_I_k by done. by rewrite read_Q_k. }
  split.
  - by rewrite Hsv, for_range_run_all.
  - intros elems rest Hn Hall Hd ->. rewrite Hsv. unfold for_range.
    rewrite Hn, Nat2N.id. by apply elems_loop.
Qed.

(** Five arrays in one another, and one more around them. *)
Lemma sv_array_recursion_witness :
  sv 7 12 (State (enc (nest 6) ++ bytes_of "next") [])
  = Ok tt (State (bytes_of "next") []).
Proof.
  apply (proj2 (sv_array_recursion 6 (le_encode 4 12) (le_encode 8 1)
                  (enc (nest 5) ++ bytes_of "next") [] eq_refl eq_refl)
               [nest 5] (bytes_of "next")).
  - reflexivity.
  - vm_compute. reflexivity.
  - vm_compute. lia.
  - vm_compute. reflexivity.
Defined.

(** ** The decoder against UTF-8 *)

Lemma to_N_byte_of_N n : n < 256 -> Byte.to_N (byte_of_N n) = n.
Proof. intros H. rewrite byte_of_N_to_N. by apply N.mod_small. Qed.

Lemma is_cont_range c :
  is_cont (Byte.to_N c) = (0x80 <=? Byte.to_N c) && (Byte.to_N c <? 0xC0).
Proof. by destruct c. Qed.

Lemma land_continuation c :
  0x80 <= Byte.to_N c < 0xC0 -> N.land (Byte.to_N c) 0x3F = Byte.to_N c - 0x80.
Proof. destruct c; simpl; intros H; first [reflexivity | lia]. Qed.

Lemma land_lead2 c :
  0xC0 <= Byte.to_N c < 0xE0 -> N.land (Byte.to_N c) 0x1F = Byte.to_N c - 0xC0.
Proof. destruct c; simpl; intros H; first [reflexivity | lia]. Qed.

Lemma land_lead3 c :
  0xE0 <= Byte.to_N c < 0xF0 -> N.land (Byte.to_N c) 0x0F = Byte.to_N c - 0xE0.
Proof. destruct c; simpl; intros H; first [reflexivity | lia]. Qed.

Lemma land_lead4 c :
  0xF0 <= Byte.to_N c < 0xF8 -> N.land (Byte.to_N c) 0x07 = Byte.to_N c - 0xF0.
Proof. destruct c; simpl; intros H; first [reflexivity | lia]. Qed.

(** Bits put above the bits of a smaller number add up with it. *)
Lemma lor_shiftl a b k : b < 2 ^ k -> N.lor (N.shiftl a k) b = a * 2 ^ k + b.
Proof.
  intros Hb. rewrite N.shiftl_mul_pow2.
  assert (N.land (a * 2 ^ k) b = 0) as Hdisj.
  { apply N.bits_inj_0. intros n. rewrite N.land_spec.
    destruct (N.lt_ge_cases n k) as [Hlt|Hge].
    - by rewrite N.mul_pow2_bits_low.
    - rewrite andb_false_iff. right.
      destruct (N.eq_dec b 0) as [->|Hne]; [apply N.bits_0|].
      apply N.bits_above_log2.
      apply N.lt_le_trans with k; [|done]. apply N.log2_lt_pow2; lia. }
  by rewrite <- N.lxor_lor, <- N.add_nocarry_lxor.
Qed.

Lemma cp2_value c0 c1 :
  0xC0 <= Byte.to_N c0 < 0xE0 -> 0x80 <= Byte.to_N c1 < 0xC0 ->
  cp2 (Byte.to_N c0) (Byte.to_N c1)
  = (Byte.to_N c0 - 0xC0) * 64 + (Byte.to_N c1 - 0x80).
Proof.
  intros H0 H1. unfold cp2. rewrite land_lead2, land_continuation by done.
  rewrite lor_shiftl by (change (2 ^ 6) with 64; lia). reflexivity.
Qed.

Lemma cp3_value c0 c1 c2 :
  0xE0 <= Byte.to_N c0 < 0xF0 -> 0x80 <= Byte.to_N c1 < 0xC0 ->
  0x80 <= Byte.to_N c2 < 0xC0 ->
  cp3 (Byte.to_N c0) (Byte.to_N c1) (Byte.to_N c2)
  = (Byte.to_N c0 - 0xE0) * 4096 + (Byte.to_N c1 - 0x80) * 64
    + (Byte.to_N c2 - 0x80).
Proof.
  intros H0 H1 H2. unfold cp3.
  rewrite land_lead3, !land_continuation by done.
  rewrite (lor_shiftl _ _ 6) by (change (2 ^ 6) with 64; lia).
  rewrite lor_shiftl by (change (2 ^ 6) with 64; change (2 ^ 12) with 4096; lia).
  change (2 ^ 6) with 64. change (2 ^ 12) with 4096. lia.
Qed.

Lemma cp4_value c0 c1 c2 c3 :
  0xF0 <= Byte.to_N c0 < 0xF8 -> 0x80 <= Byte.to_N c1 < 0xC0 ->
  0x80 <= Byte.to_N c2 < 0xC0 -> 0x80 <= Byte.to_N c3 < 0xC0 ->
  cp4 (Byte.to_N c0) (Byte.to_N c1) (Byte.to_N c2) (Byte.to_N c3)
  = (Byte.to_N c0 - 0xF0) * 262144 + (Byte.to_N c1 - 0x80) * 4096
    + (Byte.to_N c2 - 0x80) * 64 + (Byte.to_N c3 - 0x80).
Proof.
  intros H0 H1 H2 H3. unfold cp4.
  rewrite land_lead4, !land_continuation by done.
  rewrite (lor_shiftl _ _ 6) by (change (2 ^ 6) with 64; lia).
  rewrite (lor_shiftl _ _ 12)
    by (change (2 ^ 6) with 64; change (2 ^ 12) with 4096; lia).
  rewrite lor_shiftl
    by (change (2 ^ 6) with 64; change (2 ^ 12) with 4096;
        change (2 ^ 18) with 262144; lia).
  change (2 ^ 6) with 64. change (2 ^ 12) with 4096.
  change (2 ^ 18) with 262144. lia.
Qed.

(** Unfold the decoder at the first byte of its input, and no further. *)
Ltac decode_head :=
  lazymatch goal with
  | |- decode_utf8_replace (?c :: ?r) = ?rhs =>
    let R := fresh "R" in
    let r0 := fresh "r0" in
    remember rhs as R; remember r as r0;
    cbn [decode_utf8_replace]; subst r0; cbv beta iota zeta; subst R
  end.

(** Settle the comparisons of the goal from the bounds at hand. *)
Ltac settle_comparisons :=
  unfold bad_second3, bad_second4, second_ok, second_low, second_high,
         is_continuation, is_lead, is_lead34, is_lead4, is_bad_lead in *;
  rewrite ?is_cont_range;
  repeat match goal with
         | H : context [?a =? ?b] |- _ => destruct (N.eqb_spec a b); try lia
         | |- context [?a <? ?b] => destruct (N.ltb_spec a b); try lia
         | |- context [?a <=? ?b] => destruct (N.leb_spec a b); try lia
         | |- context [?a =? ?b] => destruct (N.eqb_spec a b); try lia
         end;
  try reflexivity.

Lemma decode_form2 c0 c1 r :
  0xC2 <= Byte.to_N c0 < 0xE0 -> is_continuation c1 ->
  decode_utf8_replace (c0 :: c1 :: r)
  = cp2 (Byte.to_N c0) (Byte.to_N c1) :: decode_utf8_replace r.
Proof. intros H0 H1. decode_head. settle_comparisons. Qed.

Lemma decode_form3 c0 c1 c2 r :
  0xE0 <= Byte.to_N c0 < 0xF0 -> second_ok c0 c1 -> is_continuation c2 ->
  decode_utf8_replace (c0 :: c1 :: c2 :: r)
  = cp3 (Byte.to_N c0) (Byte.to_N c1) (Byte.to_N c2) :: decode_utf8_replace r.
Proof. intros H0 H1 H2. decode_head. settle_comparisons. Qed.

Lemma decode_form4 c0 c1 c2 c3 r :
  is_lead4 c0 -> second_ok c0 c1 -> is_continuation c2 -> is_continuation c3 ->
  decode_utf8_replace (c0 :: c1 :: c2 :: c3 :: r)
  = cp4 (Byte.to_N c0) (Byte.to_N c1) (Byte.to_N c2) (Byte.to_N c3)
    :: decode_utf8_replace r.
Proof. intros H0 H1 H2 H3. decode_head. settle_comparisons. Qed.

Lemma decode_bad_second c0 c1 r :
  is_lead c0 -> ~ second_ok c0 c1 ->
  decode_utf8_replace (c0 :: c1 :: r)
  = REPLACEMENT :: decode_utf8_replace (c1 :: r).
Proof. intros H0 H1. decode_head. settle_comparisons. Qed.

Lemma decode_cut_after_second c0 c1 :
  is_lead34 c0 -> second_ok c0 c1 ->
  decode_utf8_replace [c0; c1] = [REPLACEMENT].
Proof. intros H0 H1. decode_head. settle_comparisons. Qed.

Lemma decode_bad_third c0 c1 c2 r :
  is_lead34 c0 -> second_ok c0 c1 -> ~ is_continuation c2 ->
  decode_utf8_replace (c0 :: c1 :: c2 :: r)
  = REPLACEMENT :: decode_utf8_replace (c2 :: r).
Proof. intros H0 H1 H2. decode_head. settle_comparisons. Qed.

Lemma decode_cut_after_third c0 c1 c2 :
  is_lead4 c0 -> second_ok c0 c1 -> is_continuation c2 ->
  decode_utf8_replace [c0; c1; c2] = [REPLACEMENT].
Proof. intros H0 H1 H2. decode_head. settle_comparisons. Qed.

Lemma decode_bad_fourth c0 c1 c2 c3 r :
  is_lead4 c0 -> second_ok c0 c1 -> is_continuation c2 ->
  ~ is_continuation c3 ->
  decode_utf8_replace (c0 :: c1 :: c2 :: c3 :: r)
  = REPLACEMENT :: decode_utf8_replace (c3 :: r).
Proof. intros H0 H1 H2 H3. decode_head. settle_comparisons. Qed.

(** The form of a scalar value is decoded to the value. *)
Lemma decode_utf8_encode cp r :
  is_scalar cp ->
  decode_utf8_replace (utf8_encode cp ++ r) = cp :: decode_utf8_replace r.
Proof.
  unfold is_scalar, utf8_encode. intros Hcp.
  pose proof (N.div_mod cp 64 ltac:(lia)) as Hq1.
  pose proof (N.mod_upper_bound cp 64 ltac:(lia)) as Hz.
  pose proof (N.div_mod (cp / 64) 64 ltac:(lia)) as Hq2.
  pose proof (N.mod_upper_bound (cp / 64) 64 ltac:(lia)) as Hy.
  pose proof (N.div_mod (cp / 64 / 64) 64 ltac:(lia)) as Hq3.
  pose proof (N.mod_upper_bound (cp / 64 / 64) 64 ltac:(lia)) as Hx.
  pose proof (N.Div0.div_div cp 64 64) as H4096.
  pose proof (N.Div0.div_div cp 4096 64) as H262144.
  change (64 * 64) with 4096 in H4096.
  change (4096 * 64) with 262144 in H262144.
  rewrite H4096 in Hq2, Hq3, Hx. rewrite H262144 in Hq3.
  clear H4096 H262144.
  set (z := cp mod 64) in *. set (q1 := cp / 64) in *.
  set (y := q1 mod 64) in *. set (q2 := cp / 4096) in *.
  set (x := q2 mod 64) in *. set (q3 := cp / 262144) in *.
  destruct (N.ltb_spec cp 0x80);
    [|destruct (N.ltb_spec cp 0x800); [|destruct (N.ltb_spec cp 0x10000)]];
    cbn [app].
  - rewrite decode_ascii_cons; unfold is_ascii;
      rewrite to_N_byte_of_N by lia; [done|lia].
  - assert (Byte.to_N (byte_of_N (0xC0 + q1)) = 0xC0 + q1) as E0
        by (apply to_N_byte_of_N; lia).
    assert (Byte.to_N (byte_of_N (0x80 + z)) = 0x80 + z) as E1
        by (apply to_N_byte_of_N; lia).
    rewrite decode_form2 by (unfold is_continuation; rewrite ?E0, ?E1; lia).
    rewrite cp2_value by (rewrite ?E0, ?E1; lia).
    rewrite E0, E1. f_equal. lia.
  - assert (Byte.to_N (byte_of_N (0xE0 + q2)) = 0xE0 + q2) as E0
        by (apply to_N_byte_of_N; lia).
    assert (Byte.to_N (byte_of_N (0x80 + y)) = 0x80 + y) as E1
        by (apply to_N_byte_of_N; lia).
    assert (Byte.to_N (byte_of_N (0x80 + z)) = 0x80 + z) as E2
        by (apply to_N_byte_of_N; lia).
    rewrite decode_form3.
    + rewrite cp3_value by (rewrite ?E0, ?E1, ?E2; lia).
      rewrite E0, E1, E2. f_equal. lia.
    + rewrite E0. lia.
    + unfold second_ok, second_low, second_high. rewrite E0, E1.
      repeat match goal with
             | |- context [?a =? ?b] => destruct (N.eqb_spec a b)
             end; lia.
    + unfold is_continuation. rewrite E2. lia.
  - assert (Byte.to_N (byte_of_N (0xF0 + q3)) = 0xF0 + q3) as E0
        by (apply to_N_byte_of_N; lia).
    assert (Byte.to_N (byte_of_N (0x80 + x)) = 0x80 + x) as E1
        by (apply to_N_byte_of_N; lia).
    assert (Byte.to_N (byte_of_N (0x80 + y)) = 0x80 + y) as E2
        by (apply to_N_byte_of_N; lia).
    assert (Byte.to_N (byte_of_N (0x80 + z)) = 0x80 + z) as E3
        by (apply to_N_byte_of_N; lia).
    rewrite decode_form4.
    + rewrite cp4_value by (rewrite ?E0, ?E1, ?E2, ?E3; lia).
      rewrite E0, E1, E2, E3. f_equal. lia.
    + unfold is_lead4. rewrite E0. lia.
    + unfold second_ok, second_low, second_high. rewrite E0, E1.
      repeat match goal with
             | |- context [?a =? ?b] => destruct (N.eqb_spec a b)
             end; lia.
    + unfold is_continuation. rewrite E2. lia.
    + unfold is_continuation. rewrite E3. lia.
Qed.

(** A text of scalar values comes back from its UTF-8 form. *)
Lemma decode_utf8 t r :
  Forall is_scalar t ->
  decode_utf8_replace (utf8 t ++ r) = t ++ decode_utf8_replace r.
Proof.
  unfold utf8. induction 1 as [|cp t Hcp _ IH]; [done|].
  cbn [map concat]. rewrite <- !app_assoc, decode_utf8_encode by done.
  by rewrite IH.
Qed.

Lemma decode_is_utf8_with_replacement :
  utf8_with_replacement decode_utf8_replace.
Proof.
  split; [reflexivity|]. split; [apply decode_utf8_encode|].
  split; [apply decode_bad_lead_cons|]. split; [apply decode_replaces_cut_lead|].
  split; [apply decode_bad_second|]. split; [apply decode_cut_after_second|].
  split; [apply decode_bad_third|]. split; [apply decode_cut_after_third|].
  apply decode_bad_fourth.
Qed.

(** *** Every input falls under one of the rules *)

Lemma byte_of_to_N c : byte_of_N (Byte.to_N c) = c.
Proof.
  unfold byte_of_N. pose proof (Byte.to_N_bounded c).
  rewrite N.mod_small by lia. by rewrite Byte.of_to_N.
Qed.

Lemma byte_of_N_eq n c : n = Byte.to_N c -> byte_of_N n = c.
Proof. intros ->. apply byte_of_to_N. Qed.

Lemma div_digit q z : z < 64 -> (64 * q + z) / 64 = q.
Proof. intros H. symmetry. by apply N.div_unique with z. Qed.

Lemma mod_digit q z : z < 64 -> (64 * q + z) mod 64 = z.
Proof. intros H. symmetry. by apply N.mod_unique with q. Qed.

(** Bytes that fit are the form of the value they decode to. *)
Lemma encode_form2 c0 c1 :
  0xC2 <= Byte.to_N c0 < 0xE0 -> is_continuation c1 ->
  is_scalar (cp2 (Byte.to_N c0) (Byte.to_N c1))
  /\ utf8_encode (cp2 (Byte.to_N c0) (Byte.to_N c1)) = [c0; c1].
Proof.
  unfold is_continuation, is_scalar. intros H0 H1.
  rewrite cp2_value by lia.
  set (x := Byte.to_N c0 - 0xC0). set (z := Byte.to_N c1 - 0x80).
  assert (2 <= x < 32) by lia. assert (z < 64) by lia.
  replace (x * 64 + z) with (64 * x + z) by lia.
  split; [lia|]. unfold utf8_encode.
  destruct (N.ltb_spec (64 * x + z) 0x80); [lia|].
  destruct (N.ltb_spec (64 * x + z) 0x800); [|lia].
  rewrite div_digit, mod_digit by done.
  f_equal; [|f_equal]; apply byte_of_N_eq; lia.
Qed.

Lemma encode_form3 c0 c1 c2 :
  0xE0 <= Byte.to_N c0 < 0xF0 -> second_ok c0 c1 -> is_continuation c2 ->
  is_scalar (cp3 (Byte.to_N c0) (Byte.to_N c1) (Byte.to_N c2))
  /\ utf8_encode (cp3 (Byte.to_N c0) (Byte.to_N c1) (Byte.to_N c2))
     = [c0; c1; c2].
Proof.
  unfold is_continuation, is_scalar, second_ok, second_low, second_high.
  intros H0 H1 H2.
  assert (0x80 <= Byte.to_N c1 < 0xC0
          /\ (Byte.to_N c0 = 0xE0 -> 0xA0 <= Byte.to_N c1)
          /\ (Byte.to_N c0 = 0xED -> Byte.to_N c1 < 0xA0)) as (Hc1 & HE0 & HED).
  { repeat match goal with
           | H : context [?a =? ?b] |- _ => destruct (N.eqb_spec a b)
           end; lia. }
  clear H1. rewrite cp3_value by lia.
  set (x := Byte.to_N c0 - 0xE0). set (y := Byte.to_N c1 - 0x80).
  set (z := Byte.to_N c2 - 0x80).
  assert (x < 16) by lia. assert (y < 64) by lia. assert (z < 64) by lia.
  assert (x = 0 -> 32 <= y) by lia. assert (x = 13 -> y < 32) by lia.
  replace (x * 4096 + y * 64 + z) with (64 * (64 * x + y) + z) by lia.
  split; [lia|]. unfold utf8_encode.
  destruct (N.ltb_spec (64 * (64 * x + y) + z) 0x80); [lia|].
  destruct (N.ltb_spec (64 * (64 * x + y) + z) 0x800); [lia|].
  destruct (N.ltb_spec (64 * (64 * x + y) + z) 0x10000); [|lia].
  change 4096 with (64 * 64). rewrite <- N.Div0.div_div.
  rewrite (div_digit _ z), (mod_digit _ z) by done.
  rewrite div_digit, mod_digit by done.
  repeat f_equal; apply byte_of_N_eq; lia.
Qed.

Lemma encode_form4 c0 c1 c2 c3 :
  is_lead4 c0 -> second_ok c0 c1 -> is_continuation c2 -> is_continuation c3 ->
  is_scalar (cp4 (Byte.to_N c0) (Byte.to_N c1) (Byte.to_N c2) (Byte.to_N c3))
  /\ utf8_encode
       (cp4 (Byte.to_N c0) (Byte.to_N c1) (Byte.to_N c2) (Byte.to_N c3))
     = [c0; c1; c2; c3].
Proof.
  unfold is_lead4, is_continuation, is_scalar, second_ok, second_low,
         second_high.
  intros H0 H1 H2 H3.
  assert (0x80 <= Byte.to_N c1 < 0xC0
          /\ (Byte.to_N c0 = 0xF0 -> 0x90 <= Byte.to_N c1)
          /\ (Byte.to_N c0 = 0xF4 -> Byte.to_N c1 < 0x90)) as (Hc1 & HF0 & HF4).
  { repeat match goal with
           | H : context [?a =? ?b] |- _ => destruct (N.eqb_spec a b)
           end; lia. }
  clear H1. rewrite cp4_value by lia.
  set (w := Byte.to_N c0 - 0xF0). set (x := Byte.to_N c1 - 0x80).
  set (y := Byte.to_N c2 - 0x80). set (z := Byte.to_N c3 - 0x80).
  assert (w < 5) by lia. assert (x < 64) by lia.
  assert (y < 64) by lia. assert (z < 64) by lia.
  assert (w = 0 -> 16 <= x) by lia. assert (w = 4 -> x < 16) by lia.
  replace (w * 262144 + x * 4096 + y * 64 + z)
    with (64 * (64 * (64 * w + x) + y) + z) by lia.
  split; [lia|]. unfold utf8_encode.
  destruct (N.ltb_spec (64 * (64 * (64 * w + x) + y) + z) 0x80); [lia|].
  destruct (N.ltb_spec (64 * (64 * (64 * w + x) + y) + z) 0x800); [lia|].
  destruct (N.ltb_spec (64 * (64 * (64 * w + x) + y) + z) 0x10000); [lia|].
  change 262144 with (64 * 64 * 64). change 4096 with (64 * 64).
  rewrite <- !N.Div0.div_div.
  rewrite (div_digit _ z), (mod_digit _ z) by done.
  rewrite (div_digit _ y), (mod_digit _ y) by done.
  rewrite div_digit, mod_digit by done.
  repeat f_equal; apply byte_of_N_eq; lia.
Qed.

(** The rules leave no choice: a decoder that keeps them is
    [decode_utf8_replace]. *)
Lemma utf8_with_replacement_unique dec :
  utf8_with_replacement dec -> forall bs, dec bs = decode_utf8_replace bs.
Proof.
  intros (Hnil & Hform & Hbad & Hcut1 & Hsecond & Hcut2 & Hthird & Hcut3
          & Hfourth) bs.
  induction bs as [bs IH] using (induction_ltof1 _ (@length byte)).
  unfold ltof in IH.
  destruct bs as [|c0 r]; [done|].
  pose proof (Byte.to_N_bounded c0) as Hb0.
  destruct (decide (Byte.to_N c0 < 0x80)) as [Hascii|Hno].
  { specialize (Hform (Byte.to_N c0) r).
    assert (utf8_encode (Byte.to_N c0) = [c0]) as E.
    { unfold utf8_encode. destruct (N.ltb_spec (Byte.to_N c0) 0x80); [|lia].
      by rewrite byte_of_to_N. }
    rewrite E in Hform. cbn [app] in Hform.
    rewrite Hform by (left; lia). rewrite decode_ascii_cons by done.
    f_equal. apply IH. simpl. lia. }
  destruct (decide (is_bad_lead c0)) as [Hbl|Hlead].
  { rewrite Hbad, decode_bad_lead_cons by done. f_equal. apply IH. simpl. lia. }
  assert (is_lead c0) as Hl by (unfold is_lead, is_bad_lead in *; lia).
  destruct r as [|c1 r1].
  { by rewrite Hcut1, decode_replaces_cut_lead. }
  destruct (decide (second_ok c0 c1)) as [Hs|Hs];
    [|rewrite Hsecond, decode_bad_second by done; f_equal; apply IH; simpl; lia].
  destruct (decide (Byte.to_N c0 < 0xE0)) as [H2|H34].
  { assert (is_continuation c1) as Hc1.
    { unfold is_continuation, second_ok, second_low, second_high in *.
      repeat match goal with
             | H : context [?a =? ?b] |- _ => destruct (N.eqb_spec a b)
             end; lia. }
    destruct (encode_form2 c0 c1) as [Hsc E]; [unfold is_lead in Hl; lia|done|].
    rewrite decode_form2 by (done || unfold is_lead in Hl; lia).
    specialize (Hform _ r1 Hsc). rewrite E in Hform. cbn [app] in Hform.
    rewrite Hform. f_equal. apply IH. simpl. lia. }
  assert (is_lead34 c0) as Hl34 by (unfold is_lead, is_lead34 in *; lia).
  destruct r1 as [|c2 r2].
  { by rewrite Hcut2, decode_cut_after_second. }
  destruct (decide (is_continuation c2)) as [Hc2|Hc2];
    [|rewrite Hthird, decode_bad_third by done; f_equal; apply IH; simpl; lia].
  destruct (decide (Byte.to_N c0 < 0xF0)) as [H3|H4].
  { destruct (encode_form3 c0 c1 c2) as [Hsc E];
      [unfold is_lead34 in Hl34; lia|done..|].
    rewrite decode_form3 by (done || unfold is_lead34 in Hl34; lia).
    specialize (Hform _ r2 Hsc). rewrite E in Hform. cbn [app] in Hform.
    rewrite Hform. f_equal. apply IH. simpl. lia. }
  assert (is_lead4 c0) as Hl4 by (unfold is_lead34, is_lead4 in *; lia).
  destruct r2 as [|c3 r3].
  { by rewrite Hcut3, decode_cut_after_third. }
  destruct (decide (is_continuation c3)) as [Hc3|Hc3];
    [|rewrite Hfourth, decode_bad_fourth by done; f_equal; apply IH; simpl; lia].
  destruct (encode_form4 c0 c1 c2 c3) as [Hsc E]; [done..|].
  rewrite decode_form4 by done.
  specialize (Hform _ r3 Hsc). rewrite E in Hform. cbn [app] in Hform.
  rewrite Hform. f_equal. apply IH. simpl. lia.
Qed.

(** ** C5: strings *)

(** C5. [rs] takes 8 bytes as the length L and then L bytes, 8+L in all,
    and returns their decoding; the string branch of [sv] and the string
    branch of the walker take the same 8+L bytes. The decoding is that of
    UTF-8 with replacement: the UTF-8 form of a text of scalar values
    gives the text back, every byte or cut or broken form that is not
    UTF-8 gives U+FFFD as the rules of [utf8_with_replacement] say, and
    these rules allow no other result for the bytes. The decoding cannot
    fail, and the cursor ends behind the L bytes whatever they are. *)
Theorem rs_takes_8_plus_L d key body tail acc :
  N.of_nat (length key) < 2 ^ 64 -> N.of_nat (length body) < 2 ^ 64 ->
  length (enc_string body) = (8 + length body)%nat
  /\ le_decode (take 8 (enc_string body)) = N.of_nat (length body)
  /\ rs (State (enc_string body ++ tail) acc)
     = Ok (decode_utf8_replace body) (State tail acc)
  /\ sv (S d) 8 (State (enc_string body ++ tail) acc) = Ok tt (State tail acc)
  /\ (exists acc',
        entry d (State (enc_string key ++ le_encode 4 8
                        ++ enc_string body ++ tail) acc)
        = Ok tt (State tail acc'))
  /\ (forall a c b,
        body = a ++ c :: b -> Forall is_ascii a -> is_bad_lead c ->
        decode_utf8_replace body
        = map Byte.to_N a ++ REPLACEMENT :: decode_utf8_replace b)
  /\ (forall t, Forall is_scalar t -> body = utf8 t ->
        decode_utf8_replace body = t)
  /\ utf8_with_replacement decode_utf8_replace
  /\ (forall dec, utf8_with_replacement dec ->
        dec body = decode_utf8_replace body).
Proof.
  intros Hk Hb. split; [apply length_enc_string|]. split.
  { unfold enc_string. rewrite take_app_length' by (by rewrite length_len64).
    by apply le_decode_len64. }
  split; [by apply rs_enc_string|]. split; [by apply sv_enc_string|].
  split; [|split; [|split; [|split]]].
  - eexists.
    pose proof (entry_enc d (key, VString body) tail acc) as H.
    unfold enc_entry in H. cbn [fst snd tag enc] in H.
    rewrite <- !app_assoc in H. apply H; [|by left].
    unfold well_formed_entry. cbn [fst snd well_formed].
    apply andb_true_iff. split; by apply N.ltb_lt.
  - intros a c b -> Ha Hc. by apply decode_replaces_bad_lead.
  - intros t Ht ->. rewrite <- (app_nil_r (utf8 t)), decode_utf8 by done.
    apply app_nil_r.
  - apply decode_is_utf8_with_replacement.
  - intros dec Hdec. by apply utf8_with_replacement_unique.
Qed.

(** The euro sign, a byte that is no UTF-8, a letter, a form of three
    bytes cut after two by a form of four bytes, and a lead byte at the
    end. *)
Lemma rs_takes_8_plus_L_witness :
  rs (State (enc_string [xe2; x82; xac; xff; x41; xe2; x82;
                         xf0; x9f; x98; x80; xc3] ++ bytes_of "next") [])
  = Ok [0x20AC; REPLACEMENT; 0x41; REPLACEMENT; 0x1F600; REPLACEMENT]
       (State (bytes_of "next") []).
Proof.
  pose proof (rs_takes_8_plus_L 0 (bytes_of "k")
                [xe2; x82; xac; xff; x41; xe2; x82; xf0; x9f; x98; x80; xc3]
                (bytes_of "next") []) as H.
  destruct H as (_ & _ & Hrs & _); [vm_compute; reflexivity..|].
  exact Hrs.
Defined.

(** ** C9 and C1: what an entry does to [result] *)

(** The three ways an entry can end well. *)
Lemma entry_cases d s s' :
  entry d s = Ok tt s' ->
  exists k s1 t s2,
    rs s = Ok k s1 /\ read_tag s1 = Ok t s2 /\
    ((t = 8 /\ selected k = true /\
      exists v s3, rs s2 = Ok v s3 /\ f s' = f s3
                   /\ result s' = result s ++ [block k v])
     \/ (t = 8 /\ selected k = false /\
         (exists v, rs s2 = Ok v s') /\ result s' = result s)
     \/ (t <> 8 /\ sv d t s2 = Ok tt s' /\ result s' = result s)).
Proof.
  rewrite entry_unfold. unfold bind.
  destruct (rs s) as [k s1|e s1|] eqn:Ers; [|done..].
  destruct (read_tag s1) as [t s2|e s2|] eqn:Et; [|done..].
  pose proof (rs_result _ _ _ Ers) as Hr1.
  pose proof (read_tag_result _ _ _ Et) as Hr2.
  intros H. exists k, s1, t, s2. split; [done|]. split; [done|].
  destruct (N.eqb_spec t 8) as [->|Hne].
  - destruct (rs s2) as [v s3|e s3|] eqn:Ev; [|done..].
    pose proof (rs_result _ _ _ Ev) as Hr3.
    destruct (selected k) eqn:Esel.
    + left. split; [done|]. split; [done|]. exists v, s3. split; [done|].
      unfold append in H. injection H as <-. cbn [f result]. split; [done|].
      congruence.
    + right; left. unfold ret in H. injection H as <-.
      split; [done|]. split; [done|]. split; [by exists v|congruence].
  - right; right. split; [done|]. split; [done|].
    apply sv_result_unchanged in H. congruence.
Qed.

(** C9. An entry with the string tag and a key that is not selected: the
    walker moves the cursor over the 8+L bytes of the value, to the byte
    behind it, and [result] is as before. Whatever the tag and the input,
    [sv] leaves [result] as it was, and an entry changes [result] only by
    the one block of a selected key. *)
Theorem unselected_string_is_skipped d key body tail acc :
  N.of_nat (length key) < 2 ^ 64 -> N.of_nat (length body) < 2 ^ 64 ->
  selected (decode_utf8_replace key) = false ->
  entry d (State (enc_string key ++ le_encode 4 8 ++ enc_string body ++ tail) acc)
  = Ok tt (State tail acc)
  /\ length (enc_string body) = (8 + length body)%nat
  /\ (forall d' t s,
        match sv d' t s with
        | Ok _ s' | Raise _ s' => result s' = result s
        | TooDeep => True
        end)
  /\ (forall d' s s',
        entry d' s = Ok tt s' ->
        result s' = result s
        \/ exists k v, selected k = true /\ result s' = result s ++ [block k v]).
Proof.
  intros Hk Hb Hsel. split; [|split; [apply length_enc_string|split]].
  - pose proof (entry_enc d (key, VString body) tail acc) as H.
    unfold enc_entry, captured in H. cbn [fst snd tag enc] in H.
    rewrite <- !app_assoc, Hsel, app_nil_r in H. apply H; [|by left].
    unfold well_formed_entry. cbn [fst snd well_formed].
    apply andb_true_iff. split; by apply N.ltb_lt.
  - intros d' t s. pose proof (sv_skipped d' t s) as H.
    destruct (sv d' t s); [apply H|apply H|done].
  - intros d' s s' H.
    apply entry_cases in H as (k & s1 & t & s2 & _ & _ & H).
    destruct H as [(_ & Hs & v & s3 & _ & _ & Hr)|[(_ & _ & _ & Hr)|(_ & _ & Hr)]].
    + right. by exists k, v.
    + by left.
    + by left.
Qed.

Lemma unselected_string_is_skipped_witness :
  entry 0 (State (enc_string (bytes_of "general.architecture") ++ le_encode 4 8
                  ++ enc_string (bytes_of "qwen3") ++ bytes_of "next") [])
  = Ok tt (State (bytes_of "next") []).
Proof.
  apply (unselected_string_is_skipped 0 (bytes_of "general.architecture")
           (bytes_of "qwen3") (bytes_of "next") []);
    vm_compute; reflexivity.
Defined.

(** C1. An entry that the walker gets through appends a block to [result]
    if and only if its tag is 8 and its key contains [chat_template] or
    [tokenizer.ggml.model]. The block is the key in square brackets, a
    newline, and the decoded value; nothing else of [result] changes. *)
Theorem entry_appends_iff d s s' :
  entry d s = Ok tt s' ->
  exists k s1 t s2,
    rs s = Ok k s1 /\ read_tag s1 = Ok t s2
    /\ ((exists x, result s' = result s ++ [x])
        <-> t = 8 /\ (contains CHAT_TEMPLATE k \/ contains TOKENIZER_MODEL k))
    /\ (forall x, result s' = result s ++ [x] ->
          exists v s3, rs s2 = Ok v s3
                       /\ x = [0x5B] ++ k ++ [0x5D] ++ [0x0A] ++ v)
    /\ (result s' = result s \/ exists x, result s' = result s ++ [x]).
Proof.
  intros H. apply entry_cases in H as (k & s1 & t & s2 & Hrs & Ht & H).
  exists k, s1, t, s2. split; [done|]. split; [done|].
  rewrite <- selected_spec.
  destruct H as [(-> & Hs & v & s3 & Hv & _ & Hr)|[(-> & Hs & _ & Hr)|(Hne & _ & Hr)]].
  - split; [|split].
    + split; [done|]. intros _. by eexists.
    + intros x Hx. rewrite Hr in Hx. apply app_inj_tail in Hx as [_ <-].
      by exists v, s3.
    + right. by eexists.
  - split; [|split].
    + split.
      * intros [x Hx]. rewrite Hr in Hx. symmetry in Hx.
        by apply app_singleton_ne in Hx.
      * intros [_ Hsel]. congruence.
    + intros x Hx. rewrite Hr in Hx. symmetry in Hx.
      by apply app_singleton_ne in Hx.
    + by left.
  - split; [|split].
    + split.
      * intros [x Hx]. rewrite Hr in Hx. symmetry in Hx.
        by apply app_singleton_ne in Hx.
      * intros [? _]. done.
    + intros x Hx. rewrite Hr in Hx. symmetry in Hx.
      by apply app_singleton_ne in Hx.
    + by left.
Qed.

(** The third entry of the sample: the tag is 8 and the key is selected. *)
Lemma entry_appends_iff_witness :
  exists k t,
    t = 8 /\ (contains CHAT_TEMPLATE k \/ contains TOKENIZER_MODEL k)
    /\ k = text_of_string "some.chat_template".
Proof.
  destruct (entry_appends_iff 0
              (State (enc_entry (bytes_of "some.chat_template",
                                 VString (bytes_of "{{messages}}"))) [])
              (State [] [block (text_of_string "some.chat_template")
                               (text_of_string "{{messages}}")])
              eq_refl)
    as (k & s1 & t & s2 & Hrs & Ht & Hiff & _).
  exists k, t.
  assert (t = 8 /\ (contains CHAT_TEMPLATE k \/ contains TOKENIZER_MODEL k)) as [H8 Hc].
  { apply Hiff. eexists. reflexivity. }
  split; [exact H8|]. split; [exact Hc|].
  vm_compute in Hrs. injection Hrs as Hk _. symmetry. exact Hk.
Defined.

(** ** C10: [sv] returns *)

(** C10. [sv] ends on every input and every tag. The array branch reads
    twelve bytes before the first call to itself and raises if they are not
    there, so each level of calls has twelve bytes fewer in front of it, and
    no call leaves more bytes than it found; a depth of one call per twelve
    bytes of input, and one more, is never exceeded, and a larger depth
    gives the same outcome. *)
Theorem sv_terminates d t s :
  (length (f s) < 12 * d)%nat ->
  sv d t s <> TooDeep
  /\ (forall d', (d <= d')%nat -> sv d' t s = sv d t s)
  /\ sv d 12 s
     = (if decide (12 <= length (f s))%nat
        then for_range (le_decode (take 8 (drop 4 (f s))))
                       (sv (pred d) (le_decode (take 4 (f s))))
                       (State (drop 12 (f s)) (result s))
        else Raise struct_error (State [] (result s)))
  /\ ((12 <= length (f s))%nat ->
      (length (drop 12 (f s)) < length (f s))%nat
      /\ (length (drop 12 (f s)) < 12 * pred d)%nat)
  /\ (forall a s', sv d t s = Ok a s' -> (length (f s') <= length (f s))%nat).
Proof.
  intros Hlen. pose proof (sv_not_too_deep d t s Hlen) as Hnot.
  split; [done|]. split; [|split; [|split]].
  - intros d' Hd. by apply sv_depth_mono.
  - destruct d as [|d]; [lia|]. apply sv_array_cases.
  - intros H12. rewrite length_drop. lia.
  - intros a s'. apply sv_length_le.
Qed.

(** An array of two arrays in 40 bytes: depth 4 is granted, 2 is used. *)
Lemma sv_terminates_witness :
  sv 4 12 (State (enc (VArray 12 [nest 0; nest 0]) ++ bytes_of "next") [])
  <> TooDeep.
Proof.
  apply (sv_terminates 4 12
           (State (enc (VArray 12 [nest 0; nest 0]) ++ bytes_of "next") [])).
  vm_compute. lia.
Defined.

(** ** C8: the header, the entries, and nothing more *)

(** C8. The walker takes 24 bytes in front of the first entry (8 bytes it
    does not look at, 8 bytes of a count it drops, 8 bytes of the number of
    entries nk) and then runs the body of its loop nk times and stops. On
    a file of nk well-formed entries it ends with the cursor behind the
    last entry: what follows in the file is not read, and [result] has the
    blocks of the selected string entries in the order of the file. *)
Theorem walker_reads_24_then_nk_entries d pre cnt nkb rest acc :
  length pre = 8%nat -> length cnt = 8%nat -> length nkb = 8%nat ->
  length (pre ++ cnt ++ nkb) = 24%nat
  /\ walker d (State (pre ++ cnt ++ nkb ++ rest) acc)
     = run_all (replicate (N.to_nat (le_decode nkb)) (entry d)) (State rest acc)
  /\ forall es trailer,
       le_decode nkb = N.of_nat (length es) ->
       forallb well_formed_entry es = true ->
       (file_nesting es <= d)%nat ->
       rest = concat (map enc_entry es) ++ trailer ->
       walker d (State (pre ++ cnt ++ nkb ++ rest) acc)
       = Ok tt (State trailer (acc ++ concat (map captured es))).
Proof.
  intros Hpre Hcnt Hnk. split; [rewrite !length_app; lia|].
  rewrite walker_header by done. split.
  - by rewrite for_range_run_all.
  - intros es trailer Hn Hwf Hd ->. unfold for_range.
    rewrite Hn, Nat2N.id. by apply entries_loop.
Qed.

(** The sample of three string entries with 7 bytes behind them: two
    blocks, the first and the third, and the 7 bytes left alone. *)
Lemma walker_reads_24_then_nk_entries_witness :
  walker 1 (State (enc_file sample_preamble 0 sample_entries (bytes_of "tensors")) [])
  = Ok tt (State (bytes_of "tensors")
             [ block (text_of_string "tokenizer.ggml.model") (text_of_string "gpt2");
               block (text_of_string "some.chat_template")
                     (text_of_string "{{messages}}") ]).
Proof.
  apply (proj2 (proj2 (walker_reads_24_then_nk_entries 1 sample_preamble
                         (le_encode 8 0) (len64 sample_entries)
                         (concat (map enc_entry sample_entries) ++ bytes_of "tensors")
                         [] eq_refl eq_refl eq_refl))
               sample_entries (bytes_of "tensors")).
  - vm_compute. reflexivity.
  - vm_compute. reflexivity.
  - vm_compute. lia.
  - reflexivity.
Defined.

Lemma rs_short s :
  (length (f s) < 8)%nat -> rs s = Raise struct_error (State [] (result s)).
Proof.
  intros Hlt. unfold rs.
  destruct (read_unpack_cases 8 s) as [(b & tail & Hf & Hb & _)|[_ Hk]].
  - rewrite Hf, length_app in Hlt. lia.
  - apply Hk.
Qed.

(** ** C6: the end of the file inside a read *)

Lemma for_range_nat_add n m (body : M unit) s :
  for_range_nat (n + m) body s
  = (for_range_nat n body ;;! for_range_nat m body) s.
Proof.
  revert s. induction n as [|n IH]; intros s; [reflexivity|].
  cbn [Nat.add for_range_nat]. unfold bind.
  destruct (body s) as [[] s1|e s1|]; [|done..].
  rewrite IH. reflexivity.
Qed.

(** A loop that gets through [k] rounds and has more to go raises what its
    next round raises. *)
Lemma for_range_raises_after n k (body : M unit) s s1 e s2 :
  N.of_nat k < n ->
  for_range_nat k body s = Ok tt s1 -> body s1 = Raise e s2 ->
  for_range n body s = Raise e s2.
Proof.
  intros Hk Hok Hraise. unfold for_range.
  replace (N.to_nat n) with (k + S (N.to_nat n - S k))%nat by lia.
  rewrite for_range_nat_add. unfold bind at 1. rewrite Hok.
  cbn [for_range_nat]. unfold bind. by rewrite Hraise.
Qed.

Lemma sv_cut_raises d t part :
  cut_value d t part ->
  forall acc, sv d t (State part acc) = Raise struct_error (State [] acc).
Proof.
  induction 1 as [d part Hlt|d part Hlt
                 |d at_ n elems part Hat Hn Hn64 Hall Hd Hcut IH]; intros acc.
  - rewrite sv_string.
    number_read 8%nat (State part acc) as b tail Hf Hb; [|done].
    cbn [f] in Hf. rewrite Hf, length_app in Hlt. lia.
  - rewrite sv_array_cases. by rewrite decide_False by (cbn [f]; lia).
  - rewrite sv_array.
    rewrite read_I_k by apply length_le_encode.
    rewrite read_Q_k by apply length_le_encode.
    rewrite !le_decode_encode by done.
    apply (for_range_raises_after _ (length elems) _ _ (State part acc));
      [done|by apply elems_loop|apply IH].
Qed.

Lemma read_tag_short s :
  (length (f s) < 4)%nat -> read_tag s = Raise struct_error (State [] (result s)).
Proof.
  intros Hlt. unfold read_tag, bind, read, unpack_I, unpack. cbn [f result].
  rewrite decide_False by (rewrite length_take; lia).
  by rewrite drop_ge by lia.
Qed.

Lemma read_tag_enc t tail acc :
  t < 2 ^ 32 ->
  read_tag (State (le_encode 4 t ++ tail) acc) = Ok t (State tail acc).
Proof.
  intros Ht. unfold read_tag, bind.
  rewrite read_app by (by rewrite length_le_encode).
  unfold unpack_I. rewrite unpack_ok by apply length_le_encode.
  by rewrite le_decode_encode.
Qed.

Lemma entry_cut_raises d part :
  cut_entry d part ->
  forall acc, entry d (State part acc) = Raise struct_error (State [] acc).
Proof.
  intros [part' Hlt|key part' Hk Hlt|key part' Hk Hlt|key t part' Hk Ht Ht8 Hcut]
         acc;
    rewrite entry_unfold.
  - unfold bind. by rewrite rs_short.
  - rewrite (bind_ok _ _ _ _ _ (rs_enc_string _ _ _ Hk)).
    unfold bind. by rewrite read_tag_short.
  - rewrite (bind_ok _ _ _ _ _ (rs_enc_string _ _ _ Hk)).
    rewrite (bind_ok _ _ _ _ _ (read_tag_enc 8 _ _ eq_refl)).
    change (8 =? 8) with true. cbv iota. unfold bind. by rewrite rs_short.
  - rewrite (bind_ok _ _ _ _ _ (rs_enc_string _ _ _ Hk)).
    rewrite (bind_ok _ _ _ _ _ (read_tag_enc t _ _ Ht)).
    destruct (N.eqb_spec t 8); [done|]. by apply sv_cut_raises.
Qed.

(** C6, as the script has it. The read of a number (a tag, an element
    type, a length, a count) that meets the end of the file raises
    [struct.error], and the exception ends the run before the output file
    is opened, so nothing is written. This is so for every number the run
    reads: in the 24 bytes of the header, and, behind any number of
    complete entries, in the length of a key, in a tag, in the length of a
    string value and in the header of an array, also of an array inside
    arrays. The blocks collected from the entries before are lost with
    the run. *)
Theorem short_number_read_is_fatal d pre cnt nk es cut :
  length pre = 8%nat -> length cnt = 8%nat ->
  N.of_nat (length es) < nk -> nk < 2 ^ 64 ->
  forallb well_formed_entry es = true -> (file_nesting es <= d)%nat ->
  cut_entry d cut ->
  walker d (State (pre ++ cnt ++ le_encode 8 nk
                   ++ concat (map enc_entry es) ++ cut) [])
  = Raise struct_error (State [] (concat (map captured es)))
  /\ script d (pre ++ cnt ++ le_encode 8 nk ++ concat (map enc_entry es) ++ cut)
     = Uncaught struct_error
  /\ (forall file, (length file < 24)%nat -> script d file = Uncaught struct_error)
  /\ (forall s, (length (f s) < 4)%nat ->
        (let! b := read 4 in unpack_I b) s
        = Raise struct_error (State [] (result s)))
  /\ (forall s, (length (f s) < 8)%nat ->
        (let! b := read 8 in unpack_Q b) s
        = Raise struct_error (State [] (result s))).
Proof.
  intros Hpre Hcnt Hnk Hnk64 Hwf Hd Hcut.
  assert (walker d (State (pre ++ cnt ++ le_encode 8 nk
                           ++ concat (map enc_entry es) ++ cut) [])
          = Raise struct_error (State [] (concat (map captured es)))) as Hw.
  { rewrite walker_header by (done || apply length_le_encode).
    rewrite le_decode_encode by done.
    apply (for_range_raises_after _ (length es) _ _
             (State cut ([] ++ concat (map captured es))));
      [done|by apply entries_loop|by apply entry_cut_raises]. }
  split; [done|]. split; [unfold script; by rewrite Hw|].
  split; [|split].
  - intros file Hlt. unfold script, walker. rewrite !read_skip_k.
    set (s2 := State _ _).
    assert (length (f s2) = length file - 8)%nat as H2.
    { subst s2. cbn [f]. rewrite !length_drop. lia. }
    clearbody s2.
    number_read 8%nat s2 as b tail Hf Hb; [|done].
    number_read 8%nat (State tail (result s2)) as b' tail' Hf' Hb'; [|done].
    cbn [f] in Hf'. rewrite Hf, Hf', !length_app in H2. lia.
  - intros s Hlt. apply (read_tag_short s Hlt).
  - intros s Hlt. unfold bind, read, unpack_Q, unpack. cbn [f result].
    rewrite decide_False by (rewrite length_take; lia).
    by rewrite drop_ge by lia.
Qed.

(** Three entries announced: the first is complete and collected, the
    second ends inside the count of an array of arrays. *)
Lemma short_number_read_is_fatal_witness :
  script 3 (sample_preamble ++ le_encode 8 0 ++ le_encode 8 3
            ++ concat (map enc_entry
                         [(bytes_of "tokenizer.ggml.model",
                           VString (bytes_of "gpt2"))])
            ++ enc_string (bytes_of "tokenizer.ggml.merges") ++ le_encode 4 12
            ++ le_encode 4 12 ++ le_encode 8 2 ++ concat (map enc [nest 0])
            ++ le_encode 4 0 ++ [x07; x00; x00])
  = Uncaught struct_error.
Proof.
  refine (proj1 (proj2 (short_number_read_is_fatal 3 sample_preamble
           (le_encode 8 0) 3
           [(bytes_of "tokenizer.ggml.model", VString (bytes_of "gpt2"))]
           (enc_string (bytes_of "tokenizer.ggml.merges") ++ le_encode 4 12
            ++ le_encode 4 12 ++ le_encode 8 2 ++ concat (map enc [nest 0])
            ++ le_encode 4 0 ++ [x07; x00; x00]) _ _ _ _ _ _ _)));
    try (vm_compute; (reflexivity || lia)).
  apply cut_skipped_value; [vm_compute; reflexivity..|lia|].
  apply (cut_array_element 2 12 2 [nest 0]);
    [vm_compute; reflexivity..|vm_compute; lia|].
  apply cut_array_header. vm_compute. lia.
Defined.

(** C6, as the spec has it, fails on [cut_file]: the read of the 5 bytes of
    the value meets the end of the file after 2, nothing is raised, and the
    run writes the block with the 2 bytes. *)
Lemma cut_string_body_is_written :
  (length (bytes_of "xy") < N.to_nat 5)%nat
  /\ read 5 (State (bytes_of "xy") []) = Ok (bytes_of "xy") (State [] [])
  /\ script 1 cut_file
     = Wrote (block (text_of_string "chat_template") (text_of_string "xy")) 1
  /\ ~ exists e, script 1 cut_file = Uncaught e.
Proof.
  split; [vm_compute; lia|]. split; [reflexivity|].
  assert (script 1 cut_file
          = Wrote (block (text_of_string "chat_template") (text_of_string "xy")) 1)
    as H by (vm_compute; reflexivity).
  split; [exact H|]. intros [e He]. rewrite H in He. discriminate.
Qed.

(** ** The samples, run *)

Example script_sample :
  script 1 (enc_file sample_preamble 0 sample_entries [])
  = Wrote (block (text_of_string "tokenizer.ggml.model") (text_of_string "gpt2")
           ++ SEPARATOR
           ++ block (text_of_string "some.chat_template")
                    (text_of_string "{{messages}}"))
          2.
Proof. vm_compute. reflexivity. Qed.

(** An array under tag 12 is stepped over and the string behind it is
    found. *)
Example script_array_then_string :
  script 2 (enc_file sample_preamble 0 array_entries [])
  = Wrote (block (text_of_string "tokenizer.chat_template")
                 (text_of_string "{{x}}")) 1.
Proof. vm_compute. reflexivity. Qed.

Example decode_sample :
  decode_utf8_replace [xe2; x82; xac; xff; x41; xe2; x82; xf0; x9f; x98; x80; xc3]
  = [0x20AC; REPLACEMENT; 0x41; REPLACEMENT; 0x1F600; REPLACEMENT].
Proof. reflexivity. Qed.

(** * Further properties of the script *)

(** ** [sv] on whole values *)

(** Whatever kind a well-formed value is of (a scalar, a string, an array
    of either or of arrays), [sv] called with its tag moves the cursor over
    exactly the bytes of the value and leaves [result] alone. *)
Theorem sv_takes_exactly_the_value v d tail acc :
  well_formed v = true -> (nesting v <= d)%nat ->
  sv d (tag v) (State (enc v ++ tail) acc) = Ok tt (State tail acc).
Proof. intros Hwf Hd. by apply sv_skips_value. Qed.

(** An array of two strings of different lengths, one of them empty. *)
Lemma sv_takes_exactly_the_value_witness :
  sv 2 12 (State (enc (VArray 8 [VString (bytes_of "gpt2"); VString []])
                  ++ bytes_of "next") [])
  = Ok tt (State (bytes_of "next") []).
Proof.
  apply (sv_takes_exactly_the_value
           (VArray 8 [VString (bytes_of "gpt2"); VString []]) 2
           (bytes_of "next") []).
  - vm_compute. reflexivity.
  - vm_compute. lia.
Defined.

(** ** Arrays the loop does not have to look into *)

Lemma for_range_nat_noop n (body : M unit) s :
  (forall s, body s = Ok tt s) -> for_range_nat n body s = Ok tt s.
Proof.
  intros Hb. induction n as [|n IH]; [done|].
  cbn [for_range_nat]. unfold bind. by rewrite Hb.
Qed.

Lemma for_range_nat_drop n w (body : M unit) s :
  (forall s, body s = Ok tt (State (drop w (f s)) (result s))) ->
  for_range_nat n body s = Ok tt (State (drop (n * w) (f s)) (result s)).
Proof.
  intros Hb. revert s. induction n as [|n IH]; intros s.
  - by destruct s.
  - cbn [for_range_nat]. unfold bind. rewrite Hb, IH. cbn [f result].
    rewrite drop_drop. by replace (w + n * w)%nat with (S n * w)%nat by lia.
Qed.

(** An array of scalars: whatever the count and whether or not the file
    holds all the elements, [sv] moves the cursor over the header and then
    over count times width bytes, or to the end of the file, and does not
    raise. *)
Theorem sv_array_of_scalars d e c tail acc w :
  length e = 4%nat -> length c = 8%nat -> sizes !! le_decode e = Some w ->
  sv (S (S d)) 12 (State (e ++ c ++ tail) acc)
  = Ok tt (State (drop (N.to_nat (le_decode c) * N.to_nat w) tail) acc).
Proof.
  intros He Hc Hw. rewrite sv_array.
  rewrite read_I_k by done. rewrite read_Q_k by done.
  unfold for_range.
  rewrite (for_range_nat_drop _ (N.to_nat w)); [done|].
  intros s. pose proof (sizes_tag_le _ _ Hw) as [Hle H8].
  rewrite sv_other by lia. by rewrite Hw.
Qed.

(** Three 16-bit numbers announced, two and a half in the file. *)
Lemma sv_array_of_scalars_witness :
  sv 2 12 (State (le_encode 4 2 ++ le_encode 8 3 ++ bytes_of "aabbc") [])
  = Ok tt (State [] []).
Proof.
  apply (sv_array_of_scalars 0 (le_encode 4 2) (le_encode 8 3)
           (bytes_of "aabbc") [] 2); reflexivity.
Defined.

(** An array with no elements, or with elements of a type [sv] does not
    know, is its header: [sv] moves over the 12 bytes and stops, whatever
    the count says. *)
Theorem sv_array_header_only d e c tail acc :
  length e = 4%nat -> length c = 8%nat ->
  le_decode c = 0 \/ 12 < le_decode e ->
  sv (S (S d)) 12 (State (e ++ c ++ tail) acc) = Ok tt (State tail acc).
Proof.
  intros He Hc Hcase. rewrite sv_array.
  rewrite read_I_k by done. rewrite read_Q_k by done.
  unfold for_range. destruct Hcase as [->|Hat]; [done|].
  apply for_range_nat_noop. intros s.
  rewrite sv_other by lia. by rewrite sizes_unknown.
Qed.

(** A million elements of type 13 in front of the next entry. *)
Lemma sv_array_header_only_witness :
  sv 2 12 (State (le_encode 4 13 ++ le_encode 8 1000000 ++ bytes_of "next") [])
  = Ok tt (State (bytes_of "next") []).
Proof.
  apply (sv_array_header_only 0 (le_encode 4 13) (le_encode 8 1000000)
           (bytes_of "next") []); [reflexivity | reflexivity |].
  right. vm_compute. reflexivity.
Defined.

(** ** An entry with a tag [sv] does not know *)

(** The walker takes an entry with a tag above 12 to have no value: the
    cursor stops behind the tag, nothing is appended even where the key is
    selected, and nothing is raised. *)
Theorem entry_unknown_tag_has_no_value d key t tail acc :
  N.of_nat (length key) < 2 ^ 64 -> 12 < t -> t < 2 ^ 32 ->
  entry (S d) (State (enc_string key ++ le_encode 4 t ++ tail) acc)
  = Ok tt (State tail acc).
Proof.
  intros Hk Ht Ht32. rewrite entry_unfold.
  rewrite (bind_ok _ _ _ _ _ (rs_enc_string _ _ _ Hk)).
  unfold read_tag. rewrite bind_assoc.
  rewrite read_I_k by apply length_le_encode.
  rewrite le_decode_encode by exact Ht32.
  destruct (N.eqb_spec t 8); [lia|].
  rewrite sv_other by lia. by rewrite sizes_unknown.
Qed.

Lemma entry_unknown_tag_has_no_value_witness :
  entry 1 (State (enc_string (bytes_of "tokenizer.chat_template")
                  ++ le_encode 4 13 ++ bytes_of "value") [])
  = Ok tt (State (bytes_of "value") []).
Proof.
  apply (entry_unknown_tag_has_no_value 0 (bytes_of "tokenizer.chat_template")
           13 (bytes_of "value") []); vm_compute; reflexivity.
Defined.

(** ** What the walker appends, on any input *)

Lemma rs_kept s : kept s (rs s).
Proof.
  unfold rs, bind, read, unpack_Q, unpack, ret, kept. cbn [f result].
  by case_decide.
Qed.

Lemma read_tag_kept s : kept s (read_tag s).
Proof.
  unfold read_tag, bind, read, unpack_I, unpack, kept. cbn [f result].
  by case_decide.
Qed.

Lemma sv_kept d t s : kept s (sv d t s).
Proof.
  pose proof (sv_skipped d t s) as H. unfold kept.
  destruct (sv d t s); [apply H|apply H|done].
Qed.

(** Nothing was appended. *)
Ltac nothing_new :=
  exists []; rewrite app_nil_r;
  split; [congruence | split; [simpl; lia | constructor]].

Lemma entry_appended d s : appended 1 s (entry d s).
Proof.
  rewrite entry_unfold. unfold bind, appended.
  pose proof (rs_kept s) as H1.
  destruct (rs s) as [k s1|e s1|]; cbn [kept] in H1; [|nothing_new|done].
  pose proof (read_tag_kept s1) as H2.
  destruct (read_tag s1) as [t s2|e s2|]; cbn [kept] in H2; [|nothing_new|done].
  destruct (t =? 8).
  - pose proof (rs_kept s2) as H3.
    destruct (rs s2) as [v s3|e s3|]; cbn [kept] in H3; [|nothing_new|done].
    destruct (selected k) eqn:Esel; [|unfold ret; nothing_new].
    unfold append. cbn [result]. exists [block k v].
    split; [congruence|]. split; [simpl; lia|].
    constructor; [by exists k, v|constructor].
  - pose proof (sv_kept d t s2) as H3.
    destruct (sv d t s2) as [[] s3|e s3|]; cbn [kept] in H3;
      [nothing_new|nothing_new|done].
Qed.

Lemma for_range_nat_appended n (body : M unit) :
  (forall s, appended 1 s (body s)) ->
  forall s, appended n s (for_range_nat n body s).
Proof.
  intros Hb. induction n as [|n IH]; intros s.
  - cbn. nothing_new.
  - cbn [for_range_nat]. unfold bind.
    pose proof (Hb s) as H1.
    destruct (body s) as [[] s1|e s1|]; cbn [appended] in *; [| |done].
    + destruct H1 as (new1 & Hr1 & Hl1 & Hf1).
      pose proof (IH s1) as H2.
      destruct (for_range_nat n body s1) as [[] s2|e s2|]; cbn [appended] in *;
        [| |done];
        destruct H2 as (new2 & Hr2 & Hl2 & Hf2);
        (exists (new1 ++ new2); split; [by rewrite Hr2, Hr1, app_assoc|];
         split; [rewrite length_app; lia | by apply Forall_app]).
    + destruct H1 as (new1 & Hr1 & Hl1 & Hf1).
      exists new1. split; [done|]. split; [lia|done].
Qed.

Lemma walker_appended d pre cnt nkb rest acc :
  length pre = 8%nat -> length cnt = 8%nat -> length nkb = 8%nat ->
  appended (N.to_nat (le_decode nkb)) (State rest acc)
           (walker d (State (pre ++ cnt ++ nkb ++ rest) acc)).
Proof.
  intros Hpre Hcnt Hnk. rewrite walker_header by done.
  apply for_range_nat_appended, entry_appended.
Qed.

(** Whatever the bytes behind the 24 bytes of the header are, and however
    the walk ends, the walker has only moved the cursor forward and only
    appended to [result]: what was in it is still in front, what is new are
    blocks of selected keys, and there are at most nk of them. *)
Theorem walker_only_appends_selected_blocks d pre cnt nkb rest acc :
  length pre = 8%nat -> length cnt = 8%nat -> length nkb = 8%nat ->
  match walker d (State (pre ++ cnt ++ nkb ++ rest) acc) with
  | Ok _ s' | Raise _ s' =>
    (exists n, f s' = drop n rest)
    /\ exists new, result s' = acc ++ new
                   /\ N.of_nat (length new) <= le_decode nkb
                   /\ Forall is_selected_block new
  | TooDeep => True
  end.
Proof.
  intros Hpre Hcnt Hnk.
  pose proof (walker_appended d pre cnt nkb rest acc Hpre Hcnt Hnk) as Ha.
  rewrite walker_header in * by done.
  pose proof (for_range_nat_walked (N.to_nat (le_decode nkb)) (entry d)
                (entry_walked d) (State rest acc)) as Hw.
  unfold for_range in *.
  destruct (for_range_nat _ _ _) as [[] s'|e s'|];
    cbn [appended walked f result] in *; [| |done].
  - destruct Hw as [Hn _]. split; [done|].
    destruct Ha as (new & Hr & Hl & Hf). exists new.
    split; [done|]. split; [lia|done].
  - destruct Hw as [Hn _]. split; [exists (length rest); by rewrite Hn, drop_all|].
    destruct Ha as (new & Hr & Hl & Hf). exists new.
    split; [done|]. split; [lia|done].
Qed.

(** The sample of three entries: two blocks are new, three were allowed. *)
Lemma walker_only_appends_selected_blocks_witness :
  match walker 1 (State (sample_preamble ++ le_encode 8 0 ++ len64 sample_entries
                         ++ concat (map enc_entry sample_entries)) []) with
  | Ok _ s' | Raise _ s' =>
    (exists n, f s' = drop n (concat (map enc_entry sample_entries)))
    /\ exists new, result s' = [] ++ new
                   /\ N.of_nat (length new) <= le_decode (len64 sample_entries)
                   /\ Forall is_selected_block new
  | TooDeep => True
  end.
Proof.
  apply (walker_only_appends_selected_blocks 1 sample_preamble (le_encode 8 0)
           (len64 sample_entries) (concat (map enc_entry sample_entries)) []);
    reflexivity.
Defined.

(** ** The output of a run, on any input *)

Lemma script_short_header d file :
  (length file < 24)%nat -> script d file = Uncaught struct_error.
Proof.
  intros Hlt. unfold script, walker. rewrite !read_skip_k.
  set (s2 := State _ _).
  assert (length (f s2) = length file - 8)%nat as H2.
  { subst s2. cbn [f]. rewrite !length_drop. lia. }
  clearbody s2.
  number_read 8%nat s2 as b tail Hf Hb; [|done].
  number_read 8%nat (State tail (result s2)) as b' tail' Hf' Hb'; [|done].
  cbn [f] in Hf'. rewrite Hf, Hf', !length_app in H2. lia.
Qed.

Lemma split_header (file : list byte) :
  file = take 8 file ++ take 8 (drop 8 file) ++ take 8 (drop 16 file)
         ++ drop 24 file.
Proof.
  transitivity (take 8 file ++ drop 8 file); [by rewrite take_drop|]. f_equal.
  transitivity (take 8 (drop 8 file) ++ drop 8 (drop 8 file));
    [by rewrite take_drop|]. f_equal.
  rewrite drop_drop. change (8 + 8)%nat with 16%nat.
  transitivity (take 8 (drop 16 file) ++ drop 8 (drop 16 file));
    [by rewrite take_drop|]. f_equal.
  by rewrite drop_drop.
Qed.

Lemma join_block (sep : text) (k v : text) (l : list text) :
  exists rest, join sep (block k v :: l) = 0x5B :: rest.
Proof. destruct l; cbn; eauto. Qed.

(** A run that writes its output has found at most as many keys as the
    file announces entries. The output is empty exactly when no key was
    found, and begins with the bracket of the first block otherwise. *)
Theorem script_output_shape d file out k :
  script d file = Wrote out k ->
  N.of_nat k <= entry_count file
  /\ (k = 0%nat <-> out = [])
  /\ (k <> 0%nat -> exists rest, out = 0x5B :: rest).
Proof.
  intros H. destruct (decide (length file < 24)%nat) as [Hlt|Hge].
  { rewrite script_short_header in H by done. discriminate. }
  pose proof (walker_appended d (take 8 file) (take 8 (drop 8 file))
                (take 8 (drop 16 file)) (drop 24 file) []) as Ha.
  rewrite <- split_header in Ha. unfold script in H.
  destruct (walker d (State file [])) as [[] s'|e s'|]; [|done..].
  injection H as <- <-. cbn [appended result] in Ha.
  destruct Ha as (new & Hr & Hl & Hf);
    [rewrite length_take, ?length_drop; lia..|].
  cbn [app] in Hr. rewrite Hr. unfold entry_count. split; [lia|].
  destruct Hf as [|x new' (k0 & v & _ & ->) _].
  - split; [done|]. intros Hne. done.
  - destruct (join_block SEPARATOR k0 v new') as [rest Hrest]. rewrite Hrest.
    split; [split; discriminate|]. intros _. by exists rest.
Qed.

Lemma script_output_shape_witness :
  N.of_nat 1 <= entry_count cut_file.
Proof.
  apply (script_output_shape 1 cut_file
           (block (text_of_string "chat_template") (text_of_string "xy")) 1).
  vm_compute. reflexivity.
Defined.

(** ** Twelve bytes at least for every entry *)

Lemma rs_ok_length s k s1 :
  rs s = Ok k s1 -> (length (f s1) + 8 <= length (f s))%nat.
Proof.
  unfold rs, bind, read, unpack_Q, unpack, ret. cbn [f result].
  case_decide as H; [|done]. intros [= _ <-]. cbn [f].
  rewrite length_take in H. rewrite !length_drop. lia.
Qed.

Lemma read_tag_ok_length s t s1 :
  read_tag s = Ok t s1 -> (length (f s1) + 4 <= length (f s))%nat.
Proof.
  unfold read_tag, bind, read, unpack_I, unpack. cbn [f result].
  case_decide as H; [|done]. intros [= _ <-]. cbn [f].
  rewrite length_take in H. rewrite !length_drop. lia.
Qed.

Lemma entry_ok_length d s s' :
  entry d s = Ok tt s' -> (length (f s') + 12 <= length (f s))%nat.
Proof.
  intros H. apply entry_cases in H as (k & s1 & t & s2 & Hrs & Ht & H).
  apply rs_ok_length in Hrs. apply read_tag_ok_length in Ht.
  destruct H as [(_ & _ & v & s3 & Hv & Hf & _)|[(_ & _ & [v Hv] & _)|(_ & Hsv & _)]].
  - apply rs_ok_length in Hv. rewrite Hf. lia.
  - apply rs_ok_length in Hv. lia.
  - apply sv_length_le in Hsv. lia.
Qed.

Lemma for_range_nat_ok_length n (body : M unit) :
  (forall s s', body s = Ok tt s' -> (length (f s') + 12 <= length (f s))%nat) ->
  forall s s', for_range_nat n body s = Ok tt s' ->
               (length (f s') + 12 * n <= length (f s))%nat.
Proof.
  intros Hb. induction n as [|n IH]; intros s s'.
  - intros [= <-]. lia.
  - cbn [for_range_nat]. unfold bind.
    destruct (body s) as [[] s1|e s1|] eqn:E; [|done..].
    intros H. apply IH in H. apply Hb in E. lia.
Qed.

(** A run that writes its output has read 24 bytes of header and at least
    12 bytes for every entry the file announces. So a file that announces
    more entries than it has room for never gets its output written: the
    loop runs into the end of the file. *)
Theorem script_needs_12_bytes_per_entry d file out k :
  script d file = Wrote out k ->
  (24 + 12 * N.to_nat (entry_count file) <= length file)%nat.
Proof.
  intros H. destruct (decide (length file < 24)%nat) as [Hlt|Hge].
  { rewrite script_short_header in H by done. discriminate. }
  unfold script in H. rewrite (split_header file) in H.
  rewrite walker_header in H by (rewrite length_take, ?length_drop; lia).
  unfold for_range in H. fold (entry_count file) in H.
  destruct (for_range_nat _ _ _) as [[] s'|e s'|] eqn:E; [|done..].
  apply (for_range_nat_ok_length _ _ (entry_ok_length d)) in E.
  cbn [f] in E. rewrite length_drop in E. lia.
Qed.

Lemma script_needs_12_bytes_per_entry_witness :
  (24 + 12 * N.to_nat (entry_count cut_file) <= length cut_file)%nat.
Proof.
  apply (script_needs_12_bytes_per_entry 1 cut_file
           (block (text_of_string "chat_template") (text_of_string "xy")) 1).
  vm_compute. reflexivity.
Defined.

(** ** Every run ends *)





(** ** The output for a well-formed file *)

(** For a file of well-formed entries the run writes the blocks of the
    string entries with a selected key, in the order of the file and with
    repeated keys kept, joined by the separator line, and counts them. The
    8 bytes of the preamble, the count behind them and whatever follows the
    entries have no part in it. *)
Theorem script_writes_selected_blocks d preamble tensors es trailer :
  length preamble = 8%nat ->
  N.of_nat (length es) < 2 ^ 64 ->
  forallb well_formed_entry es = true ->
  (file_nesting es <= d)%nat ->
  script d (enc_file preamble tensors es trailer)
  = Wrote (join SEPARATOR (concat (map captured es)))
          (length (concat (map captured es))).
Proof.
  intros Hpre Hn Hwf Hd. unfold script, enc_file.
  rewrite walker_header by (done || apply length_le_encode).
  unfold for_range. rewrite le_decode_len64, Nat2N.id by done.
  by rewrite entries_loop.
Qed.

(** The same key twice, under another preamble and count. *)
Lemma script_writes_selected_blocks_witness :
  script 1 (enc_file (bytes_of "notagguf") 77
              [ (bytes_of "a.chat_template", VString (bytes_of "one"));
                (bytes_of "a.chat_template", VString (bytes_of "two")) ]
              (bytes_of "tensors"))
  = Wrote (block (text_of_string "a.chat_template") (text_of_string "one")
           ++ SEPARATOR
           ++ block (text_of_string "a.chat_template") (text_of_string "two"))
          2.
Proof.
  apply (script_writes_selected_blocks 1 (bytes_of "notagguf") 77
           [ (bytes_of "a.chat_template", VString (bytes_of "one"));
             (bytes_of "a.chat_template", VString (bytes_of "two")) ]
           (bytes_of "tensors"));
    vm_compute; (reflexivity || lia).
Defined.

(** ** Keys of plain characters *)

Lemma to_N_inj x y : Byte.to_N x = Byte.to_N y -> x = y.
Proof.
  intros H. apply (f_equal Byte.of_N) in H.
  rewrite !Byte.of_to_N in H. by injection H.
Qed.

Lemma map_to_N_inj a b : map Byte.to_N a = map Byte.to_N b -> a = b.
Proof.
  revert b. induction a as [|x a IH]; intros [|y b]; simpl; try done.
  intros [= Hx Hab]. f_equal; [by apply to_N_inj|by apply IH].
Qed.

Lemma contains_map_to_N m key :
  contains (map Byte.to_N m) (map Byte.to_N key)
  <-> exists a b, key = a ++ m ++ b.
Proof.
  unfold contains. split.
  - intros (a' & b' & H). apply map_eq_app in H as (a & r & -> & <- & H).
    apply map_eq_app in H as (m' & b & -> & Hm & <-).
    apply map_to_N_inj in Hm as ->. by exists a, b.
  - intros (a & b & ->). exists (map Byte.to_N a), (map Byte.to_N b).
    by rewrite !map_app.
Qed.

(** For a key of bytes below 128 the choice is made on the bytes: the key
    is selected exactly when the bytes of [chat_template] or of
    [tokenizer.ggml.model] occur in it, in this spelling and case. *)
Theorem ascii_key_selected_by_its_bytes key :
  Forall is_ascii key ->
  selected (decode_utf8_replace key) = true
  <-> (exists a b, key = a ++ bytes_of "chat_template" ++ b)
      \/ (exists a b, key = a ++ bytes_of "tokenizer.ggml.model" ++ b).
Proof.
  intros Hkey. rewrite decode_ascii by done. rewrite selected_spec.
  change CHAT_TEMPLATE with (map Byte.to_N (bytes_of "chat_template")).
  change TOKENIZER_MODEL with (map Byte.to_N (bytes_of "tokenizer.ggml.model")).
  by rewrite !contains_map_to_N.
Qed.

Lemma ascii_key_selected_by_its_bytes_witness :
  selected (decode_utf8_replace (bytes_of "tokenizer.chat_template")) = true.
Proof.
  apply (ascii_key_selected_by_its_bytes (bytes_of "tokenizer.chat_template")).
  - repeat constructor.
  - left. exists (bytes_of "tokenizer."), []. reflexivity.
Defined.

Example utf8_encode_sample :
  utf8 [0x41; 0xE9; 0x20AC; 0x1F600]
  = [x41; xc3; xa9; xe2; x82; xac; xf0; x9f; x98; x80].
Proof. reflexivity. Qed.
